(** * uhttpd Lua plugin (lua.c): embedding and verified properties

    The plugin is glue between the uhttpd host (reached through the
    [uhttpd_ops] table of callbacks) and a Lua 5.1 interpreter (reached
    through the Lua C API).  The embedding keeps that shape:

    - the Lua state is a value stack, a table of globals and a store of
      tables addressed by reference;
    - the C API calls the plugin makes are functions in a small monad over
      the process state (Lua state, operating-system world, log of API
      calls), whose outcomes are: normal return, a Lua error (longjmp),
      [exit], divergence, or undefined behaviour of the C API;
    - what the script itself does is not in lua.c: it is a parameter
      ([lua_runtime]);
    - what the host does is not in lua.c either: it is a parameter
      ([uhttpd_ops]). *)

From Stdlib Require Import ZArith QArith String Ascii List Lia Bool.
From stdpp Require Import base gmap strings list pretty.


Local Open Scope Z_scope.

(** ** C integers *)

(** Conversion of a mathematical integer to a 32-bit [int] (two's complement
    wrap-around). *)
Definition to_int (z : Z) : Z := (z + 2 ^ 31) mod 2 ^ 32 - 2 ^ 31.

Definition INT_MAX : Z := 2147483647.
Definition INT_MIN : Z := -2147483648.

Definition strlen (s : string) : Z := Z.of_nat (String.length s).

(** [strchr s c]: offset of the first occurrence of [c] in [s] (the C
    function returns the pointer [s + offset]), [None] for NULL. *)
Fixpoint strchr (s : string) (c : ascii) : option nat :=
  match s with
  | EmptyString => None
  | String a rest =>
      if Ascii.eqb a c then Some O
      else match strchr rest c with
           | Some n => Some (S n)
           | None => None
           end
  end.

(** The C string that starts [n] bytes into [s] (pointer arithmetic [s + n]). *)
Fixpoint string_drop (n : nat) (s : string) : string :=
  match n, s with
  | O, _ => s
  | S n', String _ rest => string_drop n' rest
  | S _, EmptyString => EmptyString
  end.

(** What the C library prints for a [%s] argument ([glibc] prints
    [(null)] for a NULL pointer). *)
Definition show_str (s : option string) : string := default "(null)" s.

Definition CR : string := String (ascii_of_nat 13) EmptyString.
Definition LF : string := String (ascii_of_nat 10) EmptyString.

(** ** Constants of the missing headers (Linux values) *)

Definition STDIN_FILENO : Z := 0.
Definition EINTR : Z := 4.
Definition EAGAIN : Z := 11.
Definition EWOULDBLOCK : Z := 11.
Definition POLLIN : Z := 1.
Definition EXIT_FAILURE : Z := 1.

Definition LUA_ERRRUN : Z := 2.
Definition LUA_ERRSYNTAX : Z := 3.
Definition LUA_ERRMEM : Z := 4.
Definition LUA_ERRERR : Z := 5.
Definition LUA_ERRFILE : Z := 6.

Definition UH_LUA_CB : string := "handle_request".

(** ** Lua values *)

(** C functions that can be stored in a Lua value.  [Fn_luaB_print] is the
    base library's [print]; the other three are the plugin's. *)
Inductive cfunction : Type :=
| Fn_luaB_print
| Fn_uh_lua_recv
| Fn_uh_lua_urldecode
| Fn_uh_lua_urlencode.

(** [lua_Number] is a C [double]; the model takes exact rationals.  Every
    [int] converts exactly, and the one non-integer number the plugin
    builds, [0.9 + version / 10.0], is kept as the exact rational. *)
Definition lua_Number : Type := Q.

Inductive lua_value : Type :=
| LNil
| LBoolean (b : bool)
| LNumber (n : lua_Number)
| LString (s : string)
| LTable (ref : nat)
| LCFunction (f : cfunction)
| LClosure (id : nat).

#[global] Instance cfunction_eq_dec : EqDecision cfunction.
Proof. solve_decision. Defined.

#[global] Instance Q_eq_dec : EqDecision Q.
Proof. solve_decision. Defined.

#[global] Instance lua_value_eq_dec : EqDecision lua_value.
Proof. unfold lua_Number. solve_decision. Defined.

Definition luaL_typename (v : lua_value) : string :=
  match v with
  | LNil => "nil"
  | LBoolean _ => "boolean"
  | LNumber _ => "number"
  | LString _ => "string"
  | LTable _ => "table"
  | LCFunction _ | LClosure _ => "function"
  end.

Definition is_function (v : lua_value) : bool :=
  match v with
  | LCFunction _ | LClosure _ => true
  | _ => false
  end.

Definition is_nil (v : lua_value) : bool :=
  match v with
  | LNil => true
  | _ => false
  end.

Definition is_string (v : lua_value) : bool :=
  match v with
  | LString _ => true
  | _ => false
  end.

(** ** Tables *)

(** A table is a finite map from non-nil keys to non-nil values, kept as an
    association list with at most one pair per key.  Metatables are not
    modelled (the plugin sets none). *)
Definition table : Type := list (lua_value * lua_value).

Fixpoint tbl_get (k : lua_value) (t : table) : lua_value :=
  match t with
  | [] => LNil
  | (k', v) :: rest => if decide (k' = k) then v else tbl_get k rest
  end.

Fixpoint tbl_remove (k : lua_value) (t : table) : table :=
  match t with
  | [] => []
  | (k', v) :: rest =>
      if decide (k' = k) then tbl_remove k rest else (k', v) :: tbl_remove k rest
  end.

(** [t[k] = v]; assigning nil removes the entry. *)
Definition tbl_set (k v : lua_value) (t : table) : table :=
  if is_nil v then tbl_remove k t else (k, v) :: tbl_remove k t.

(** ** The Lua state *)

(** [stack] has its top first: Lua index [-1] is the head. *)
Record lua_State : Type := mk_lua_State {
  stack : list lua_value;
  globals : gmap string lua_value;
  tables : list table;
}.

(** Position in [stack] (top first) of the Lua index [idx], for a stack of
    [n] values; [None] for an index that is not acceptable. *)
Definition stack_pos (n : nat) (idx : Z) : option nat :=
  if 0 <? idx then
    if idx <=? Z.of_nat n then Some (Z.to_nat (Z.of_nat n - idx)) else None
  else if idx <? 0 then
    if - idx <=? Z.of_nat n then Some (Z.to_nat (- idx - 1)) else None
  else None.

Definition value_at (L : lua_State) (idx : Z) : option lua_value :=
  match stack_pos (length (stack L)) idx with
  | Some i => stack L !! i
  | None => None
  end.

Arguments stack_pos : simpl never.
Arguments value_at : simpl never.

(** ** The operating-system world *)

(** What the [poll] that follows a failed [read] does: the [revents] it
    reports, and the [errno] it sets when it fails itself ([None]: [errno]
    is left as [read] set it). *)
Record poll_outcome : Type := mk_poll_outcome {
  revents : Z;
  poll_errno : option Z;
}.

(** [poll] comes back after its timeout: no event, [errno] left alone. *)
Definition poll_timeout : poll_outcome := mk_poll_outcome 0 None.

(** One result of [read] on a descriptor: the bytes it delivers (none: end
    of file), or a failure with the [errno] it sets; [pl] is what a [poll]
    on the descriptor does right after that failure, if it is called. *)
Inductive read_outcome : Type :=
| ReadBytes (s : string)
| ReadFail (e : Z) (pl : poll_outcome).

(** [w_pending] gives, per file descriptor, the results of the reads still
    to come; once they are used up every further read is an end of file.
    Every read of the world comes back: a read that blocks for ever and
    input without end are not among the worlds described here. *)
Record world : Type := mk_world {
  w_pending : gmap Z (list read_outcome);
  w_stdout : string;
  w_stderr : string;
  w_errno : Z;
}.

Definition pending (w : world) (fd : Z) : list read_outcome :=
  default [] (w_pending w !! fd).

Definition set_pending (fd : Z) (rs : list read_outcome) (w : world) : world :=
  mk_world (<[fd := rs]> (w_pending w)) (w_stdout w) (w_stderr w) (w_errno w).

Definition set_errno (e : Z) (w : world) : world :=
  mk_world (w_pending w) (w_stdout w) (w_stderr w) e.

Definition write_stdout (s : string) (w : world) : world :=
  mk_world (w_pending w) (w_stdout w +:+ s) (w_stderr w) (w_errno w).

Definition write_stderr (s : string) (w : world) : world :=
  mk_world (w_pending w) (w_stdout w) (w_stderr w +:+ s) (w_errno w).

(** ** Lua errors *)

Inductive lua_error : Type :=
| ErrRun (obj : lua_value)
| ErrMem
| ErrErr.

(** Status code [lua_pcall] returns for an error. *)
Definition error_status (e : lua_error) : Z :=
  match e with
  | ErrRun _ => LUA_ERRRUN
  | ErrMem => LUA_ERRMEM
  | ErrErr => LUA_ERRERR
  end.

(** Error value [lua_pcall] leaves on the stack: for a runtime error the
    value that was thrown (any Lua value), for the other two a fixed
    message. *)
Definition error_object (e : lua_error) : lua_value :=
  match e with
  | ErrRun obj => obj
  | ErrMem => LString "not enough memory"
  | ErrErr => LString "error in error handling"
  end.

(** ** The process and the API log *)

(** Calls of the Lua C API, in the order they are made. *)
Inductive api_call : Type :=
| A_open
| A_openlibs
| A_newtable
| A_getglobal (name : string)
| A_setglobal (name : string)
| A_pushvalue (idx : Z)
| A_pushcfunction (f : cfunction)
| A_pushstring (s : option string)
| A_pushlstring (s : string)
| A_pushnumber (n : lua_Number)
| A_setfield (idx : Z) (k : string)
| A_remove (idx : Z)
| A_loadfile (path : string)
| A_pcall (nargs nresults errfunc : Z) (f : lua_value) (args : list lua_value).

Record process : Type := mk_process {
  p_lua : lua_State;
  p_world : world;
  p_log : list api_call;
}.

Definition is_loadfile (c : api_call) : bool :=
  match c with
  | A_loadfile _ => true
  | _ => false
  end.

Definition is_pcall (c : api_call) : bool :=
  match c with
  | A_pcall _ _ _ _ _ => true
  | _ => false
  end.

(** ** The monad of the C code *)

Inductive result (A : Type) : Type :=
| Ok (a : A) (p : process)          (* normal return *)
| Raise (e : lua_error) (p : process) (* lua_error: longjmp to the enclosing protected call *)
| Exit (code : Z) (p : process)     (* exit(code) *)
| Diverge (p : process)             (* the script never returns; [p]: the state at the call *)
| Undefined.                        (* misuse of the C API (bad index, stack underflow) *)

Arguments Ok {A} a p.
Arguments Raise {A} e p.
Arguments Exit {A} code p.
Arguments Diverge {A} p.
Arguments Undefined {A}.

Definition M (A : Type) : Type := process -> result A.

#[global] Instance M_ret : MRet M := λ A a p, Ok a p.

#[global] Instance M_bind : MBind M := λ A B f m p,
  match m p with
  | Ok a p' => f a p'
  | Raise e p' => Raise e p'
  | Exit c p' => Exit c p'
  | Diverge p' => Diverge p'
  | Undefined => Undefined
  end.

Definition get_lua : M lua_State := λ p, Ok (p_lua p) p.
Definition put_lua (L : lua_State) : M unit :=
  λ p, Ok tt (mk_process L (p_world p) (p_log p)).
Definition get_world : M world := λ p, Ok (p_world p) p.
Definition put_world (w : world) : M unit :=
  λ p, Ok tt (mk_process (p_lua p) w (p_log p)).
Definition log (c : api_call) : M unit :=
  λ p, Ok tt (mk_process (p_lua p) (p_world p) (p_log p ++ [c])).
Definition raise {A} (e : lua_error) : M A := λ p, Raise e p.
Definition exit {A} (code : Z) : M A := λ p, Exit code p.
Definition undefined {A} : M A := λ _, Undefined.

Definition printf (s : string) : M unit :=
  w ← get_world; put_world (write_stdout s w).
Definition fprintf_stderr (s : string) : M unit :=
  w ← get_world; put_world (write_stderr s w).
Definition get_errno : M Z := w ← get_world; mret (w_errno w).

Definition push (v : lua_value) : M unit :=
  L ← get_lua; put_lua (mk_lua_State (v :: stack L) (globals L) (tables L)).

Definition pop : M lua_value :=
  L ← get_lua;
  match stack L with
  | v :: rest => put_lua (mk_lua_State rest (globals L) (tables L)) ;; mret v
  | [] => undefined
  end.

Definition index (idx : Z) : M lua_value :=
  L ← get_lua;
  match value_at L idx with
  | Some v => mret v
  | None => undefined
  end.

Definition set_stack (st : list lua_value) : M unit :=
  L ← get_lua; put_lua (mk_lua_State st (globals L) (tables L)).

(** ** The script and the host: what lua.c does not contain *)

Inductive load_error : Type :=
| LoadSyntax (msg : string)
| LoadMem
| LoadFile (msg : string).

Definition load_status (e : load_error) : Z :=
  match e with
  | LoadSyntax _ => LUA_ERRSYNTAX
  | LoadMem => LUA_ERRMEM
  | LoadFile _ => LUA_ERRFILE
  end.

Definition load_message (e : load_error) : lua_value :=
  match e with
  | LoadSyntax msg | LoadFile msg => LString msg
  | LoadMem => LString "not enough memory"
  end.

(** What calling a Lua function does is the script's business: it returns
    values, throws, ends the process itself ([os.exit]) or never comes
    back; it may change globals, tables and the world on the way. *)
Inductive call_outcome : Type :=
| Returns (vals : list lua_value) (L : lua_State) (w : world)
| Fails (e : lua_error) (L : lua_State) (w : world)
| Exits (code : Z) (L : lua_State) (w : world)
| Loops.

Record lua_runtime : Type := mk_lua_runtime {
  (* luaL_loadfile on a path: the compiled chunk (a closure) or an error *)
  rt_loadfile : string -> world -> load_error + nat;
  (* calling function [f] on [args] *)
  rt_call : lua_value -> list lua_value -> lua_State -> world -> call_outcome;
  (* Lua's number to string and string to number coercions *)
  rt_number2str : lua_Number -> string;
  rt_str2number : string -> option lua_Number;
}.

Record config : Type := mk_config {
  docroot : string;
  lua_handler : string;
  lua_prefix : string;
}.

(** [cl->request.version]. *)
Record client : Type := mk_client {
  request_version : Z;
}.

(** The fields of [struct path_info] the plugin touches; a C pointer that
    may be NULL is an [option]. *)
Record path_info : Type := mk_path_info {
  pi_name : option string;
  pi_phys : option string;
  pi_query : option string;
}.

(** One element of the array [get_process_vars] returns (the terminating
    element with a NULL name is the end of the list). *)
Record env_var : Type := mk_env_var {
  var_name : string;
  var_value : option string;
}.

(** The host callbacks whose results the plugin uses.  A conversion
    [convert(out_buf, out_size, in_buf, in_len)] gives its return value and
    the contents of [out_buf].  [create_process] gives whether the child
    process was created. *)
Record uhttpd_ops : Type := mk_uhttpd_ops {
  path_match : string -> string -> bool;
  get_process_vars : client -> path_info -> list env_var;
  create_process : client -> path_info -> string -> bool;
  urldecode : Z -> string -> Z * string;
  urlencode : Z -> string -> Z * string;
}.

(** ** The Lua C API *)

(** Bindings [luaL_openlibs] installs; of the standard library only the
    global the plugin reads is listed. *)
Definition baselib : gmap string lua_value :=
  {[ "print" := LCFunction Fn_luaB_print ]}.

Definition lua_open : M unit :=
  log A_open ;;
  put_lua (mk_lua_State [] ∅ []).

Definition luaL_openlibs : M unit :=
  log A_openlibs ;;
  L ← get_lua;
  put_lua (mk_lua_State (stack L) (baselib ∪ globals L) (tables L)).

(** A new table has a reference no table of the store has. *)
Definition lua_newtable : M unit :=
  log A_newtable ;;
  L ← get_lua;
  put_lua (mk_lua_State (LTable (length (tables L)) :: stack L)
                        (globals L) (tables L ++ [ [] ])).

Definition lua_getglobal (name : string) : M unit :=
  log (A_getglobal name) ;;
  L ← get_lua;
  push (default LNil (globals L !! name)).

Definition lua_setglobal (name : string) : M unit :=
  log (A_setglobal name) ;;
  v ← pop;
  L ← get_lua;
  put_lua (mk_lua_State (stack L)
             (if is_nil v then delete name (globals L) else <[name := v]> (globals L))
             (tables L)).

Definition lua_pushvalue (idx : Z) : M unit :=
  log (A_pushvalue idx) ;;
  v ← index idx;
  push v.

Definition lua_pushcfunction (f : cfunction) : M unit :=
  log (A_pushcfunction f) ;;
  push (LCFunction f).

(** [lua_pushstring] pushes nil for a NULL pointer. *)
Definition lua_pushstring (s : option string) : M unit :=
  log (A_pushstring s) ;;
  push (match s with Some s => LString s | None => LNil end).

Definition lua_pushlstring (s : string) : M unit :=
  log (A_pushlstring s) ;;
  push (LString s).

Definition lua_pushnumber (n : lua_Number) : M unit :=
  log (A_pushnumber n) ;;
  push (LNumber n).

(** [t[k] = v] for the table [t] at [idx] and the value [v] on top, which
    is popped. *)
Definition lua_setfield (idx : Z) (k : string) : M unit :=
  log (A_setfield idx k) ;;
  t ← index idx;
  v ← pop;
  match t with
  | LTable r =>
      L ← get_lua;
      match tables L !! r with
      | Some tb =>
          put_lua (mk_lua_State (stack L) (globals L)
                     (<[r := tbl_set (LString k) v tb]> (tables L)))
      | None => undefined
      end
  | _ => raise (ErrRun (LString ("attempt to index a " +:+ luaL_typename t +:+ " value")))
  end.

Definition lua_remove (idx : Z) : M unit :=
  log (A_remove idx) ;;
  L ← get_lua;
  match stack_pos (length (stack L)) idx with
  | Some i =>
      if decide (i < length (stack L))%nat
      then set_stack (take i (stack L) ++ drop (S i) (stack L))
      else undefined
  | None => undefined
  end.

Definition lua_isfunction (idx : Z) : M bool :=
  L ← get_lua; mret (from_option is_function false (value_at L idx)).

Definition lua_isnil (idx : Z) : M bool :=
  L ← get_lua; mret (from_option is_nil false (value_at L idx)).

(** The integral part of a number: the fraction is discarded (truncation
    towards zero), as the conversion of a [double] to an integer type does. *)
Definition truncate (n : lua_Number) : Z := Z.quot (Qnum n) (Z.pos (Qden n)).

Section Runtime.

Variable rt : lua_runtime.

(** [lua_tolstring]: a string is returned as it is, a number is converted
    (the stack value becomes that string), anything else gives NULL. *)
Definition lua_tostring (idx : Z) : M (option string) :=
  L ← get_lua;
  match stack_pos (length (stack L)) idx with
  | Some i =>
      match stack L !! i with
      | Some (LString s) => mret (Some s)
      | Some (LNumber n) =>
          let s := rt_number2str rt n in
          set_stack (<[i := LString s]> (stack L)) ;; mret (Some s)
      | Some _ => mret None
      | None => undefined
      end
  | None => undefined
  end.

(** Message of [luaL_argerror] for a value of the wrong type (the position
    information Lua adds inside a called function is left out). *)
Definition bad_argument (narg : Z) (expected : string) (v : lua_value) : string :=
  "bad argument #" +:+ pretty narg +:+ " (" +:+ expected +:+ " expected, got " +:+
  luaL_typename v +:+ ")".

(** [luaL_checkstring]: the string at [narg], or a Lua error when the value
    there is neither a string nor a number; it never returns NULL. *)
Definition luaL_checkstring (narg : Z) : M string :=
  s ← lua_tostring narg;
  match s with
  | Some s => mret s
  | None =>
      v ← index narg;
      raise (ErrRun (LString (bad_argument narg "string" v)))
  end.

(** [luaL_checknumber]: the number at [narg] (a string that reads as a
    number counts), or a Lua error. *)
Definition luaL_checknumber (narg : Z) : M lua_Number :=
  L ← get_lua;
  let bad (v : lua_value) : M lua_Number :=
    raise (ErrRun (LString (bad_argument narg "number" v))) in
  match value_at L narg with
  | Some (LNumber n) => mret n
  | Some (LString s) =>
      match rt_str2number rt s with
      | Some n => mret n
      | None => bad (LString s)
      end
  | Some v => bad v
  | None => bad LNil
  end.

Definition luaL_loadfile (path : string) : M Z :=
  log (A_loadfile path) ;;
  w ← get_world;
  match rt_loadfile rt path w with
  | inr id => push (LClosure id) ;; mret 0
  | inl e => push (load_message e) ;; mret (load_status e)
  end.

(** Results of a call adjusted to [nresults] ([nresults < 0]: all of them). *)
Definition adjust_results (nresults : Z) (vals : list lua_value) : list lua_value :=
  if nresults <? 0 then vals
  else take (Z.to_nat nresults) (vals ++ replicate (Z.to_nat nresults) LNil).

(** Calling a value: a function runs, anything else is a runtime error
    (there are no metatables). *)
Definition call_value (f : lua_value) (args : list lua_value) (L : lua_State) (w : world)
  : call_outcome :=
  if is_function f
  then rt_call rt f args L w
  else Fails (ErrRun (LString ("attempt to call a " +:+ luaL_typename f +:+ " value"))) L w.

(** [lua_pcall] with no error handler ([errfunc = 0], the only way the
    plugin calls it): the function and its [nargs] arguments leave the
    stack; on success the results are pushed and 0 is returned, on failure
    the error value is pushed and the error's status is returned. *)
Definition lua_pcall (nargs nresults errfunc : Z) : M Z :=
  L ← get_lua;
  w ← get_world;
  let n := Z.to_nat nargs in
  match drop n (stack L) with
  | f :: base =>
      if negb (errfunc =? 0) then undefined else
      let args := rev (take n (stack L)) in
      log (A_pcall nargs nresults errfunc f args) ;;
      match call_value f args (mk_lua_State base (globals L) (tables L)) w with
      | Returns vals L' w' =>
          put_lua (mk_lua_State (rev (adjust_results nresults vals) ++ base)
                                (globals L') (tables L')) ;;
          put_world w' ;;
          mret 0
      | Fails e L' w' =>
          put_lua (mk_lua_State (error_object e :: base) (globals L') (tables L')) ;;
          put_world w' ;;
          mret (error_status e)
      | Exits code L' w' =>
          put_lua (mk_lua_State base (globals L') (tables L')) ;;
          put_world w' ;;
          exit code
      | Loops => λ p, Diverge p
      end
  | [] => undefined
  end.

(** A Lua error that reaches no protected call ends in the panic function
    of [luaL_newstate], which prints to stderr, and then in
    [exit(EXIT_FAILURE)]. *)
Definition panic_message (s : option string) : string :=
  "PANIC: unprotected error in call to Lua API (" +:+ show_str s +:+ ")" +:+ LF.

Definition unprotected {A} (m : M A) : M A := λ p,
  match m p with
  | Raise e p' =>
      (s ← (push (error_object e) ;; lua_tostring (-1));
       fprintf_stderr (panic_message s) ;;
       exit EXIT_FAILURE) p'
  | r => r
  end.

End Runtime.

(** ** Sample hosts, scripts and processes

    Concrete inputs for the worked examples at the end of the file. *)

Module Sample.

Definition conf : config := mk_config "/www" "/usr/lib/uhttpd/handler.lua" "/lua".

(** A host in the manner of uhttpd: the variables carry the script name and
    the query string, and no value for [PATH_INFO]. *)
Definition vars (cl : client) (pi : path_info) : list env_var :=
  [ mk_env_var "GATEWAY_INTERFACE" (Some "CGI/1.1");
    mk_env_var "SCRIPT_NAME" (pi_name pi);
    mk_env_var "QUERY_STRING" (Some (default "" (pi_query pi)));
    mk_env_var "PATH_INFO" None ].

Definition convert_copy (out_size : Z) (s : string) : Z * string := (strlen s, s).

Definition ops : uhttpd_ops :=
  mk_uhttpd_ops String.prefix vars (λ _ _ _, true) convert_copy convert_copy.

(** The same host when it cannot create the child process. *)
Definition ops_no_child : uhttpd_ops :=
  mk_uhttpd_ops String.prefix vars (λ _ _ _, false) convert_copy convert_copy.

(** A host whose process variables come with a value for [PATH_INFO]. *)
Definition ops_path_info : uhttpd_ops :=
  mk_uhttpd_ops String.prefix
    (λ cl pi, (vars cl pi ++ [ mk_env_var "PATH_INFO" (Some "/from/the/host") ])%list)
    (λ _ _ _, true) convert_copy convert_copy.

Definition strerror (e : Z) : string := "error " +:+ pretty e.

Definition ENOMEM : Z := 12.
Definition errno_no_memory (cl : client) (pi : path_info) (url : string) : Z := ENOMEM.

(** Scripts: what a call of a Lua function does.
    - [script_returns]: the function prints a response and returns;
    - [script_error_string]: [error("boom")];
    - [script_error_table]: [error({})], the error value is a new table;
    - [script_out_of_memory]: the allocator fails. *)
Definition script_returns (f : lua_value) (args : list lua_value) (L : lua_State)
  (w : world) : call_outcome :=
  Returns [] L (write_stdout ("Status: 200 OK" +:+ CR +:+ LF +:+ CR +:+ LF +:+ "hello") w).

Definition script_error_string (f : lua_value) (args : list lua_value) (L : lua_State)
  (w : world) : call_outcome :=
  Fails (ErrRun (LString "handler.lua:3: boom")) L w.

Definition script_error_table (f : lua_value) (args : list lua_value) (L : lua_State)
  (w : world) : call_outcome :=
  Fails (ErrRun (LTable (length (tables L))))
        (mk_lua_State (stack L) (globals L) (tables L ++ [ [] ])) w.

(** [error()]: the error value is nil. *)
Definition script_error_nil (f : lua_value) (args : list lua_value) (L : lua_State)
  (w : world) : call_outcome :=
  Fails (ErrRun LNil) L w.

Definition script_out_of_memory (f : lua_value) (args : list lua_value) (L : lua_State)
  (w : world) : call_outcome :=
  Fails ErrMem L w.

(** The handler script itself, run by [uh_lua_state_init]: it defines the
    global [handle_request]. *)
Definition script_defines_handler (f : lua_value) (args : list lua_value) (L : lua_State)
  (w : world) : call_outcome :=
  Returns [] (mk_lua_State (stack L) (<["handle_request" := LClosure 1]> (globals L)) (tables L)) w.

Definition number2str (n : lua_Number) : string :=
  pretty (Z.quot (Qnum n) (Z.pos (Qden n))).

(** A runtime that loads every file as closure 0 and runs [script]. *)
Definition rt (script : lua_value -> list lua_value -> lua_State -> world -> call_outcome)
  : lua_runtime :=
  mk_lua_runtime (λ _ _, inr 0%nat) script number2str (λ _, None).

Definition rt_returns : lua_runtime := rt script_returns.
Definition rt_init : lua_runtime := rt script_defines_handler.
Definition rt_out_of_memory : lua_runtime := rt script_out_of_memory.
Definition rt_error_string : lua_runtime := rt script_error_string.
Definition rt_error_table : lua_runtime := rt script_error_table.
Definition rt_error_nil : lua_runtime := rt script_error_nil.

(** A runtime that finds no file to load. *)
Definition rt_no_file : lua_runtime :=
  mk_lua_runtime (λ path _, inl (LoadFile ("cannot open " +:+ path)))
                 script_returns number2str (λ _, None).

(** [BUFSIZ] of the GNU C library. *)
Definition LUAL_BUFFERSIZE : Z := 8192.

Definition world0 : world := mk_world ∅ "" "" 0.

(** A process before the plugin is initialised. *)
Definition fresh : process := mk_process (mk_lua_State [] ∅ []) world0 [].

(** The child process of a request: the Lua state is the one
    [uh_lua_state_init] left, with the handler as global and on the stack. *)
Definition child : process :=
  mk_process
    (mk_lua_State [LClosure 1]
       (<["handle_request" := LClosure 1]> (<["uhttpd" := LTable 0]> baselib))
       [ [ (LString "docroot", LString "/www");
           (LString "urlencode", LCFunction Fn_uh_lua_urlencode);
           (LString "urldecode", LCFunction Fn_uh_lua_urldecode);
           (LString "recv", LCFunction Fn_uh_lua_recv);
           (LString "sendc", LCFunction Fn_luaB_print);
           (LString "send", LCFunction Fn_luaB_print) ] ])
    world0 [].

Definition cl : client := mk_client 2.

(** [pi] as [lua_handle_request] passes it on. *)
Definition pi : path_info :=
  mk_path_info (Some "/lua") (Some "/usr/lib/uhttpd/handler.lua") None.

(** A process in which [uhttpd.recv(n)] was called: the argument is on the
    stack of the C function, [rs] are the reads to come on standard input. *)
Definition receiving (n : Z) (rs : list read_outcome) : process :=
  mk_process (mk_lua_State [LNumber (inject_Z n)] ∅ [])
             (mk_world {[ STDIN_FILENO := rs ]} "" "" 0) [].

(** The same, for any number [d] as argument. *)
Definition receiving_number (d : lua_Number) (rs : list read_outcome) : process :=
  mk_process (mk_lua_State [LNumber d] ∅ [])
             (mk_world {[ STDIN_FILENO := rs ]} "" "" 0) [].

(** The conversion instruction of x86 gives INT_MIN for every number that
    is out of range. *)
Definition int_cast_overflow (d : lua_Number) : Z := INT_MIN.

(** A [poll] that is interrupted by a signal. *)
Definition poll_interrupted : poll_outcome := mk_poll_outcome 0 (Some EINTR).

(** A [poll] that reports input. *)
Definition poll_input : poll_outcome := mk_poll_outcome POLLIN None.

(** A conversion that refuses a percent sign (-2) and an input longer than
    the buffer (-1), and copies every other input. *)
Definition convert_strict (out_size : Z) (s : string) : Z * string :=
  match strchr s "%" with
  | Some _ => (-2, "")
  | None => if out_size <? strlen s then (-1, "") else (strlen s, s)
  end.

(** A process in which a C function of the plugin was called on [v]. *)
Definition called_on (v : lua_value) : process :=
  mk_process (mk_lua_State [v] ∅ []) world0 [].

(** The handler fails with the status LUA_ERRERR. *)
Definition script_error_in_error (f : lua_value) (args : list lua_value) (L : lua_State)
  (w : world) : call_outcome :=
  Fails ErrErr L w.

Definition rt_error_in_error : lua_runtime := rt script_error_in_error.

(** A child process whose Lua state has no global [handle_request]. *)
Definition child_no_handler : process :=
  mk_process (mk_lua_State [] baselib []) world0 [].

End Sample.

(** ** The plugin *)

Section Plugin.

Variable rt : lua_runtime.
(** [ops] and [conf]: the statics [lua_plugin_init] sets from its arguments. *)
Variable ops : uhttpd_ops.
Variable conf : config.
(** [LUAL_BUFFERSIZE] of luaconf.h and [strerror] of the C library. *)
Variable LUAL_BUFFERSIZE : Z.
Variable strerror : Z -> string.

(** *** uh_lua_recv *)

(** The [int] the machine gives when a number whose integral part is no
    [int] is converted to [int].  C leaves that conversion undefined; the
    compiled conversion gives some [int] (INT_MIN with the conversion
    instruction of x86, INT_MAX or INT_MIN where the conversion
    saturates). *)
Variable int_cast_overflow : lua_Number -> Z.

(** The conversion in [len = luaL_checknumber(L, 1)]: the integral part of
    the number when it is an [int], and else the [int] the machine gives. *)
Definition int_of_number (n : lua_Number) : Z :=
  let z := truncate n in
  if (INT_MIN <=? z) && (z <=? INT_MAX) then z else to_int (int_cast_overflow n).

(** [errno] after the [poll] that follows a [read] which failed with [e]. *)
Definition errno_after_poll (e : Z) (pl : poll_outcome) : Z :=
  default e (poll_errno pl).

(** The tests after a failed [read]: the loop goes on when the descriptor
    would block and [poll] then reports input, and when [errno] is EINTR at
    the second test, be it from [read] or from the [poll] in between. *)
Definition retry (e : Z) (pl : poll_outcome) : bool :=
  if (e =? EWOULDBLOCK) || (e =? EAGAIN)
  then negb (Z.land (revents pl) POLLIN =? 0) || (errno_after_poll e pl =? EINTR)
  else e =? EINTR.

(** The read loop.  [rs] are the results the coming reads on
    [STDIN_FILENO] have, [B] is the [luaL_Buffer], [errno] the C variable.
    The result is the buffer, [data_len], the reads not yet made and
    [errno].  [data_len += r] wraps around as an [int] does. *)
Fixpoint recv_loop (len : Z) (rs : list read_outcome) (B : string) (data_len errno : Z)
  : string * Z * list read_outcome * Z :=
  if 0 <? len then
    match rs with
    | [] => (* read returns 0 *) (B, data_len, [], errno)
    | ReadFail e pl :: rest =>
        (* r < 0, errno = e *)
        if (e =? EWOULDBLOCK) || (e =? EAGAIN) then
          (* pfd.revents = 0; poll(&pfd, 1, 1000) *)
          let errno := errno_after_poll e pl in
          if negb (Z.land (revents pl) POLLIN =? 0)
          then recv_loop len rest B data_len errno
          else if errno =? EINTR then recv_loop len rest B data_len errno
          else (B, (if data_len =? 0 then -1 else data_len), rest, errno)
        else if e =? EINTR then recv_loop len rest B data_len e
        else (B, (if data_len =? 0 then -1 else data_len), rest, e)
    | ReadBytes s :: rest =>
        let r := strlen s in
        if r =? 0 then (B, data_len, rest, errno)
        else
          let B := B +:+ s in
          let data_len := to_int (data_len + r) in
          if negb (r =? LUAL_BUFFERSIZE) then (B, data_len, rest, errno)
          else recv_loop len rest B data_len errno
    end
  else (B, data_len, rs, errno).

Definition luaL_pushresult (B : string) : M unit := push (LString B).

(** The C function returns the number of results; they are the topmost
    values of the stack, the last one on top. *)
Definition uh_lua_recv : M Z :=
  d ← luaL_checknumber rt 1;
  let len := int_of_number d in
  w ← get_world;
  let '(B, data_len, rest, errno) :=
    recv_loop len (pending w STDIN_FILENO) "" 0 (w_errno w) in
  put_world (set_errno errno (set_pending STDIN_FILENO rest w)) ;;
  luaL_pushresult B ;;
  lua_pushnumber (inject_Z data_len) ;;
  if 0 <? data_len then
    lua_pushvalue (-2) ;;
    lua_remove (-3) ;;
    mret 2
  else
    lua_remove (-2) ;;
    mret 1.

(** The results of a C function that returned [n], first result first. *)
Definition results (n : Z) (p : process) : list lua_value :=
  rev (take (Z.to_nat n) (stack (p_lua p))).

(** *** uh_lua_strconvert, uh_lua_urldecode, uh_lua_urlencode *)

Definition luaL_error {A} (msg : string) : M A := raise (ErrRun (LString msg)).

Definition uh_lua_strconvert (convert : Z -> string -> Z * string) : M Z :=
  in_buf ← luaL_checkstring rt 1;
  let '(out_len, out_buf) := convert 4096 in_buf in
  (if out_len <? 0 then
     let error := if out_len =? -1 then "buffer overflow" else "malformed string" in
     luaL_error (error +:+ " on URL conversion" +:+ LF)
   else mret tt) ;;
  lua_pushlstring (substring 0 (Z.to_nat out_len) out_buf) ;;
  mret 1.

Definition uh_lua_urldecode : M Z := uh_lua_strconvert (urldecode ops).
Definition uh_lua_urlencode : M Z := uh_lua_strconvert (urlencode ops).

(** The code behind a C function value, for the functions of this file. *)
Definition cfunction_code (f : cfunction) : option (M Z) :=
  match f with
  | Fn_uh_lua_recv => Some uh_lua_recv
  | Fn_uh_lua_urldecode => Some uh_lua_urldecode
  | Fn_uh_lua_urlencode => Some uh_lua_urlencode
  | Fn_luaB_print => None
  end.

(** *** uh_lua_state_init *)

(** The block commented "build uhttpd api table". *)
Definition uh_lua_api_table : M unit :=
  lua_newtable ;;
  lua_getglobal "print" ;;
  lua_pushvalue (-1) ;;
  lua_setfield (-3) "send" ;;
  lua_setfield (-2) "sendc" ;;
  lua_pushcfunction Fn_uh_lua_recv ;;
  lua_setfield (-2) "recv" ;;
  lua_pushcfunction Fn_uh_lua_urldecode ;;
  lua_setfield (-2) "urldecode" ;;
  lua_pushcfunction Fn_uh_lua_urlencode ;;
  lua_setfield (-2) "urlencode" ;;
  lua_pushstring (Some (docroot conf)) ;;
  lua_setfield (-2) "docroot" ;;
  lua_setglobal "uhttpd".

(** The [error:] label. *)
Definition uh_lua_state_init_error (status : string) : M unit :=
  isnil ← lua_isnil (-1);
  msg ← (if negb isnil then lua_tostring rt (-1) else mret (Some "(unknown error)"));
  fprintf_stderr ("Error " +:+ status +:+ " Lua handler: " +:+ show_str msg +:+ LF) ;;
  exit 1.

Definition uh_lua_state_init : M unit :=
  lua_open ;;
  luaL_openlibs ;;
  uh_lua_api_table ;;
  ret ← luaL_loadfile rt (lua_handler conf);
  if negb (ret =? 0) then uh_lua_state_init_error "loading"
  else
    ret ← lua_pcall rt 0 0 0;
    if negb (ret =? 0) then uh_lua_state_init_error "initializing"
    else
      lua_getglobal UH_LUA_CB ;;
      isfn ← lua_isfunction (-1);
      if negb isfn then
        fprintf_stderr ("Error: Lua handler provides no " +:+ UH_LUA_CB +:+ "() callback." +:+ LF) ;;
        exit 1
      else mret tt.

(** *** lua_main *)

(** Lines 206 to 217: the query string goes to [pi->query], what follows
    the prefix in the path goes to [PATH_INFO]. *)
Definition lua_main_path_info (pi : path_info) (url : string) : M path_info :=
  let prefix_len := to_int (strlen (lua_prefix conf)) in
  let path_len := to_int (strlen url) in
  let str := strchr url "?" in
  let '(pi, path_len) :=
    match str with
    | Some off =>
        (mk_path_info (pi_name pi) (pi_phys pi) (Some (string_drop off url)),
         to_int (Z.of_nat off))
    | None => (pi, path_len)
    end in
  (if prefix_len <? path_len then
     lua_pushlstring (substring (Z.to_nat prefix_len) (Z.to_nat (path_len - prefix_len)) url) ;;
     lua_setfield (-2) "PATH_INFO"
   else mret tt) ;;
  mret pi.

(** The loop over the array of [get_process_vars]. *)
Fixpoint lua_main_vars (vars : list env_var) : M unit :=
  match vars with
  | [] => mret tt
  | var :: rest =>
      match var_value var with
      | None => lua_main_vars rest
      | Some value =>
          lua_pushstring (Some value) ;;
          lua_setfield (-2) (var_name var) ;;
          lua_main_vars rest
      end
  end.

Definition http_version_number (cl : client) : lua_Number :=
  ((9 # 10) + inject_Z (request_version cl) / inject_Z 10)%Q.

(** Lines 201 to 228: the callback and its argument are put on the stack. *)
Definition lua_main_env (cl : client) (pi : path_info) (url : string) : M path_info :=
  lua_getglobal UH_LUA_CB ;;
  lua_newtable ;;
  pi ← lua_main_path_info pi url;
  lua_main_vars (get_process_vars ops cl pi) ;;
  lua_pushnumber (http_version_number cl) ;;
  lua_setfield (-2) "HTTP_VERSION" ;;
  mret pi.

(** Lines 230 to 242.  [luaL_checkstring] returns no NULL, so the test
    [if (!error)] of the source never fires; [error] is not printed. *)
Definition lua_main_call (pi : path_info) : M unit :=
  ret ← lua_pcall rt 1 0 0;
  (if (ret =? LUA_ERRMEM) || (ret =? LUA_ERRRUN) then
     error ← luaL_checkstring rt (-1);
     errno ← get_errno;
     printf ("Status: 500 Internal Server Error" +:+ CR +:+ LF +:+ CR +:+ LF +:+
             "Unable to launch the requested Lua program:" +:+ LF +:+
             "  " +:+ show_str (pi_phys pi) +:+ ": " +:+ strerror errno +:+ LF)
   else mret tt) ;;
  exit 0.

Definition lua_main_body (cl : client) (pi : path_info) (url : string) : M unit :=
  pi ← lua_main_env cl pi url;
  lua_main_call pi.

(** [lua_main] runs in the child process, under no protected call. *)
Definition lua_main (cl : client) (pi : path_info) (url : string) : M unit :=
  unprotected rt (lua_main_body cl pi url).

(** *** lua_handle_request, check_lua_url, lua_plugin_init *)

(** Calls of host operations that have no result the plugin uses. *)
Inductive host_call : Type :=
| H_create_process (cl : client) (pi : path_info) (url : string)
                   (cb : client -> path_info -> string -> M unit)
| H_client_error (cl : client) (code : Z) (summary : string) (msg : string).

(** [create_process] sets [errno] when it fails; [errno] is the value the
    variable has after the call. *)
Variable errno_after_create : client -> path_info -> string -> Z.

(** The static [_pi] of [lua_handle_request], zero-initialised. *)
Definition _pi : path_info := mk_path_info None None None.

(** The argument [pi] is overwritten with [&_pi] before it is used. *)
Definition lua_handle_request (cl : client) (url : string) (pi : path_info) : list host_call :=
  let pi := _pi in
  let pi := mk_path_info (Some (lua_prefix conf)) (pi_phys pi) (pi_query pi) in
  let pi := mk_path_info (pi_name pi) (Some (lua_handler conf)) (pi_query pi) in
  H_create_process cl pi url lua_main ::
  (if negb (create_process ops cl pi url) then
     [ H_client_error cl 500 "Internal Server Error"
         ("Failed to create CGI process: " +:+ strerror (errno_after_create cl pi url)) ]
   else []).

Definition check_lua_url (url : string) : bool :=
  path_match ops (lua_prefix conf) url.

Record dispatch_handler : Type := mk_dispatch_handler {
  check_url : string -> bool;
  handle_request : client -> string -> path_info -> list host_call;
}.

Definition lua_dispatch : dispatch_handler :=
  {| check_url := check_lua_url; handle_request := lua_handle_request |}.

(** [handlers]: the host's list of dispatch handlers, to which
    [dispatch_add] appends. *)
Definition dispatch_add (h : dispatch_handler) (handlers : list dispatch_handler)
  : list dispatch_handler := handlers ++ [h].

Definition lua_plugin_init (handlers : list dispatch_handler)
  : M (Z * list dispatch_handler) :=
  unprotected rt
    (uh_lua_state_init ;;
     mret (0, dispatch_add lua_dispatch handlers)).

(** [struct uhttpd_plugin]: the entry point the host looks up. *)
Record uhttpd_plugin_t : Type := mk_uhttpd_plugin {
  init : list dispatch_handler -> M (Z * list dispatch_handler);
}.

Definition uhttpd_plugin : uhttpd_plugin_t := {| init := lua_plugin_init |}.

(** ** Definitions used in the statements *)

(** The process after the table of reference [r] went through [f] and the
    API calls [calls] were logged. *)
Definition with_table (r : nat) (f : table -> table) (calls : list api_call)
  (p : process) : process :=
  mk_process
    (mk_lua_State (stack (p_lua p)) (globals (p_lua p))
       (alter f r (tables (p_lua p))))
    (p_world p)
    (p_log p ++ calls).

(** The table of reference [r] is on top of the stack. *)
Definition table_on_top (r : nat) (p : process) : Prop :=
  (exists st, stack (p_lua p) = LTable r :: st) /\ (r < length (tables (p_lua p)))%nat.

(** What the loop over the process variables makes of a table, and the API
    calls it takes. *)
Fixpoint vars_table (vars : list env_var) (t : table) : table :=
  match vars with
  | [] => t
  | var :: rest =>
      match var_value var with
      | None => vars_table rest t
      | Some value => vars_table rest (tbl_set (LString (var_name var)) (LString value) t)
      end
  end.

Fixpoint vars_calls (vars : list env_var) : list api_call :=
  match vars with
  | [] => []
  | var :: rest =>
      match var_value var with
      | None => vars_calls rest
      | Some value =>
          A_pushstring (Some value) :: A_setfield (-2) (var_name var) :: vars_calls rest
      end
  end.

(** [pi] and the path length after the test on [strchr(url, '?')]. *)
Definition split_query (pi : path_info) (url : string) : path_info * Z :=
  match strchr url "?" with
  | Some off =>
      (mk_path_info (pi_name pi) (pi_phys pi) (Some (string_drop off url)),
       to_int (Z.of_nat off))
  | None => (pi, to_int (strlen url))
  end.

(** The string pushed for [PATH_INFO], if one is. *)
Definition path_info_field (pi : path_info) (url : string) : option string :=
  let prefix_len := to_int (strlen (lua_prefix conf)) in
  let path_len := snd (split_query pi url) in
  if prefix_len <? path_len
  then Some (substring (Z.to_nat prefix_len) (Z.to_nat (path_len - prefix_len)) url)
  else None.

Definition path_table (pi : path_info) (url : string) (t : table) : table :=
  match path_info_field pi url with
  | Some s => tbl_set (LString "PATH_INFO") (LString s) t
  | None => t
  end.

Definition path_calls (pi : path_info) (url : string) : list api_call :=
  match path_info_field pi url with
  | Some s => [A_pushlstring s; A_setfield (-2) "PATH_INFO"]
  | None => []
  end.

(** The environment table of a request and the API calls that build it. *)
Definition env_table (cl : client) (pi : path_info) (url : string) : table :=
  tbl_set (LString "HTTP_VERSION") (LNumber (http_version_number cl))
    (vars_table (get_process_vars ops cl (fst (split_query pi url)))
       (path_table pi url [])).

Definition env_calls (cl : client) (pi : path_info) (url : string) : list api_call :=
  path_calls pi url ++
  vars_calls (get_process_vars ops cl (fst (split_query pi url))) ++
  [A_pushnumber (http_version_number cl); A_setfield (-2) "HTTP_VERSION"].

(** The process at the moment [lua_main] calls the handler: the callback
    and the new table are on the stack. *)
Definition env_process (cl : client) (pi : path_info) (url : string) (p : process)
  : process :=
  mk_process
    (mk_lua_State
       (LTable (length (tables (p_lua p))) ::
        default LNil (globals (p_lua p) !! UH_LUA_CB) :: stack (p_lua p))
       (globals (p_lua p))
       (tables (p_lua p) ++ [env_table cl pi url]))
    (p_world p)
    (p_log p ++ [A_getglobal UH_LUA_CB; A_newtable] ++ env_calls cl pi url).

(** The path portion of a URL: the URL up to its first question mark. *)
Definition path_portion (url : string) : string :=
  match strchr url "?" with
  | Some off => substring 0 off url
  | None => url
  end.

(** The URL from its first question mark on. *)
Definition query_portion (url : string) : option string :=
  match strchr url "?" with
  | Some off => Some (string_drop off url)
  | None => None
  end.

(** An entry of the environment table: the key is a string; the value is a
    string, but for [HTTP_VERSION], whose value is the version number. *)
Definition env_entry_ok (cl : client) (kv : lua_value * lua_value) : Prop :=
  exists s, kv.1 = LString s /\
    if decide (s = "HTTP_VERSION")
    then kv.2 = LNumber (http_version_number cl)
    else is_string kv.2 = true.

(** An entry that maps a string to a string. *)
Definition string_entry (kv : lua_value * lua_value) : Prop :=
  is_string kv.1 = true /\ is_string kv.2 = true.

(** The table [lua_main] has on top of the stack when it calls the
    handler satisfies [P]; [Q] holds of the [pi] it leaves. *)
Definition handler_env (cl : client) (pi : path_info) (url : string) (p : process)
  (P : table -> Prop) (Q : path_info -> Prop) : Prop :=
  exists pi' p' r env,
    lua_main_env cl pi url p = Ok pi' p' /\
    value_at (p_lua p') (-1) = Some (LTable r) /\
    tables (p_lua p') !! r = Some env /\
    P env /\ Q pi'.

(** PATH_INFO is what follows the prefix in the path portion of [url], and
    is absent when nothing follows. *)
Definition path_info_of_path (url : string) (env : table) : Prop :=
  tbl_get (LString "PATH_INFO") env =
    if strlen (lua_prefix conf) <? strlen (path_portion url)
    then LString (string_drop (String.length (lua_prefix conf)) (path_portion url))
    else LNil.

(** [pi->query] is the URL from its first question mark on (and is left as
    it was when there is none). *)
Definition query_recorded (pi : path_info) (url : string) (pi' : path_info) : Prop :=
  pi_query pi' = match query_portion url with
                 | Some q => Some q
                 | None => pi_query pi
                 end.

(** The host gives no value to the variable [name]. *)
Definition host_leaves (name : string) (cl : client) : Prop :=
  forall pi, Forall (λ var, var_name var = name -> var_value var = None)
                    (get_process_vars ops cl pi).

(** *** Reading: the words of the claims *)

(** A [read] of [LUAL_BUFFERSIZE] bytes delivers no more than that. *)
Definition chunk_fits (o : read_outcome) : Prop :=
  match o with
  | ReadBytes s => strlen s <= LUAL_BUFFERSIZE
  | ReadFail _ _ => True
  end.

(** The three reasons for the reading to stop: end of file, a read error
    that is not retried, a read of fewer than [LUAL_BUFFERSIZE] bytes. *)
Definition stops_reading (o : read_outcome) : bool :=
  match o with
  | ReadBytes s => (strlen s =? 0) || (strlen s <? LUAL_BUFFERSIZE)
  | ReadFail e pl => negb (retry e pl)
  end.

(** The reads up to the first one that stops the reading, that one
    included. *)
Fixpoint reads_made (rs : list read_outcome) : list read_outcome :=
  match rs with
  | [] => []
  | o :: rest => if stops_reading o then [o] else o :: reads_made rest
  end.

(** The bytes a sequence of reads delivers. *)
Fixpoint bytes_of (rs : list read_outcome) : string :=
  match rs with
  | [] => ""
  | ReadBytes s :: rest => s +:+ bytes_of rest
  | ReadFail _ _ :: rest => bytes_of rest
  end.

(** A read error that is not retried is among [rs]. *)
Definition fatal_error (rs : list read_outcome) : bool :=
  existsb (λ o, match o with
                | ReadFail e pl => negb (retry e pl)
                | ReadBytes _ => false
                end) rs.

(** The reads a call with length [len] makes. *)
Definition reads_of_call (len : Z) (rs : list read_outcome) : list read_outcome :=
  if 0 <? len then reads_made rs else [].

(** What [uhttpd.recv] returns after the reads [made]: the byte count and
    the data when there is data, else 0, or -1 after a read error. *)
Definition recv_results (made : list read_outcome) : list lua_value :=
  let data := bytes_of made in
  if 0 <? strlen data
  then [LNumber (inject_Z (strlen data)); LString data]
  else [LNumber (inject_Z (if fatal_error made then -1 else 0))].

(** C9 as it is stated: two results are the data followed by its length. *)
Definition data_then_count (n : Z) (p' : process) : Prop :=
  n = 2 -> exists data, results n p' = [LString data; LNumber (inject_Z (strlen data))].

(** The [path_info] [lua_handle_request] hands to [create_process]. *)
Definition request_path_info : path_info :=
  mk_path_info (Some (lua_prefix conf)) (Some (lua_handler conf)) None.

(** *** Outcomes *)

(** The process in which a computation ends. *)
Definition final_process {A} (r : result A) : option process :=
  match r with
  | Ok _ p | Raise _ p | Exit _ p | Diverge p => Some p
  | Undefined => None
  end.

(** Number of [luaL_loadfile] calls in a log. *)
Definition loads (l : list api_call) : nat := length (filter (λ c, is_loadfile c = true) l).

(** Number of [lua_pcall] calls in a log. *)
Definition pcalls (l : list api_call) : nat := length (filter (λ c, is_pcall c = true) l).

(** [m] consumes reads of standard input and of no other descriptor; when
    it returns two results, the second is the bytes of the reads it
    consumed.  It returns or throws, and does nothing else. *)
Definition reads_only_stdin (m : M Z) : Prop :=
  forall q,
    match m q with
    | Ok n q' =>
        (exists used,
           pending (p_world q) STDIN_FILENO = (used ++ pending (p_world q') STDIN_FILENO)%list /\
           (n = 2 -> exists count, results n q' = [LNumber count; LString (bytes_of used)])) /\
        (forall fd, fd <> STDIN_FILENO -> pending (p_world q') fd = pending (p_world q) fd)
    | Raise _ q' => p_world q' = p_world q
    | _ => False
    end.

(** [m] reads the request body from standard input: called with a length
    of at least 1 that is an [int], it makes the reads of descriptor 0 up
    to the first that stops the reading and returns what they delivered
    (each read delivers no more than LUAL_BUFFERSIZE bytes, and the bytes
    to come are no more than an [int] counts). *)
Definition reads_stdin (m : M Z) : Prop :=
  forall q d,
    value_at (p_lua q) 1 = Some (LNumber d) ->
    (1 <= d)%Q -> (d < 2147483648)%Q ->
    Forall chunk_fits (pending (p_world q) STDIN_FILENO) ->
    strlen (bytes_of (pending (p_world q) STDIN_FILENO)) <= INT_MAX ->
    exists n q',
      m q = Ok n q' /\
      results n q' = recv_results (reads_made (pending (p_world q) STDIN_FILENO)) /\
      pending (p_world q') STDIN_FILENO =
        drop (length (reads_made (pending (p_world q) STDIN_FILENO)))
             (pending (p_world q) STDIN_FILENO).

(** C8 as it is stated: a call with a length greater than 0 made the reads
    up to the first that stops the reading. *)
Definition reads_until_stop (d : lua_Number) (p p' : process) : Prop :=
  (0 < d)%Q ->
  pending (p_world p') STDIN_FILENO =
    drop (length (reads_made (pending (p_world p) STDIN_FILENO)))
         (pending (p_world p) STDIN_FILENO).

(** The string [lua_tostring] gives for a value, if it gives one. *)
Definition tostring_value (v : lua_value) : option string :=
  match v with
  | LString s => Some s
  | LNumber n => Some (rt_number2str rt n)
  | _ => None
  end.

(** The process after [lua_pcall rt nargs 0 0] called [f] on [args] with
    the stack [base] below: the state the call left, [top] pushed. *)
Definition after_call (top : list lua_value) (base : list lua_value) (L' : lua_State)
  (w' : world) (l : list api_call) : process :=
  mk_process (mk_lua_State (top ++ base) (globals L') (tables L')) w' l.

(** The response [lua_main] prints when the handler failed. *)
Definition response_500 (pi : path_info) (errno : Z) : string :=
  "Status: 500 Internal Server Error" +:+ CR +:+ LF +:+ CR +:+ LF +:+
  "Unable to launch the requested Lua program:" +:+ LF +:+
  "  " +:+ show_str (pi_phys pi) +:+ ": " +:+ strerror errno +:+ LF.

(** The API table and the calls that build it. *)
Definition api_table : table :=
  [ (LString "docroot", LString (docroot conf));
    (LString "urlencode", LCFunction Fn_uh_lua_urlencode);
    (LString "urldecode", LCFunction Fn_uh_lua_urldecode);
    (LString "recv", LCFunction Fn_uh_lua_recv);
    (LString "sendc", LCFunction Fn_luaB_print);
    (LString "send", LCFunction Fn_luaB_print) ].

Definition api_calls : list api_call :=
  [ A_open; A_openlibs; A_newtable; A_getglobal "print"; A_pushvalue (-1);
    A_setfield (-3) "send"; A_setfield (-2) "sendc";
    A_pushcfunction Fn_uh_lua_recv; A_setfield (-2) "recv";
    A_pushcfunction Fn_uh_lua_urldecode; A_setfield (-2) "urldecode";
    A_pushcfunction Fn_uh_lua_urlencode; A_setfield (-2) "urlencode";
    A_pushstring (Some (docroot conf)); A_setfield (-2) "docroot";
    A_setglobal "uhttpd" ].

(** The Lua state in which the handler script is loaded and run. *)
Definition api_state : lua_State :=
  mk_lua_State [] (<["uhttpd" := LTable 0]> baselib) [api_table].

(** The stack value [lua_tostring] leaves: a number becomes its string. *)
Definition tostring_convert (v : lua_value) : lua_value :=
  match v with
  | LNumber n => LString (rt_number2str rt n)
  | _ => v
  end.

(** [lua_pcall rt nargs 0 0] on the function [f] and the arguments [args],
    with [base] below them on the stack. *)
Definition pcall_result (nargs : Z) (f : lua_value) (args base : list lua_value)
  (g : gmap string lua_value) (t : list table) (w : world) (l : list api_call) : result Z :=
  let l' := (l ++ [A_pcall nargs 0 0 f args])%list in
  match call_value rt f args (mk_lua_State base g t) w with
  | Returns vals L' w' => Ok 0 (after_call [] base L' w' l')
  | Fails e L' w' => Ok (error_status e) (after_call [error_object e] base L' w' l')
  | Exits code L' w' => Exit code (after_call [] base L' w' l')
  | Loops => Diverge (mk_process (mk_lua_State (rev args ++ f :: base) g t) w l')
  end.

(** How [lua_main] ends, from what the call of the handler does. *)
Definition lua_main_outcome (pi : path_info) (f : lua_value) (args base : list lua_value)
  (g : gmap string lua_value) (t : list table) (w : world) (l : list api_call)
  : result unit :=
  let l' := (l ++ [A_pcall 1 0 0 f args])%list in
  match call_value rt f args (mk_lua_State base g t) w with
  | Returns vals L' w' => Exit 0 (after_call [] base L' w' l')
  | Fails e L' w' =>
      if (error_status e =? LUA_ERRMEM) || (error_status e =? LUA_ERRRUN) then
        match tostring_value (error_object e) with
        | Some s =>
            Exit 0 (after_call [tostring_convert (error_object e)] base L'
                      (write_stdout (response_500 pi (w_errno w')) w') l')
        | None =>
            let msg := bad_argument (-1) "string" (error_object e) in
            Exit EXIT_FAILURE
                 (after_call [LString msg; error_object e] base L'
                    (write_stderr (panic_message (Some msg)) w') l')
        end
      else Exit 0 (after_call [error_object e] base L' w' l')
  | Exits code L' w' => Exit code (after_call [] base L' w' l')
  | Loops => Diverge (mk_process (mk_lua_State (rev args ++ f :: base) g t) w l')
  end.

(** What the [error:] label of [uh_lua_state_init] prints for the value on
    top of the stack. *)
Definition init_error_message (status : string) (v : lua_value) : string :=
  "Error " +:+ status +:+ " Lua handler: " +:+
  show_str (if is_nil v then Some "(unknown error)" else tostring_value v) +:+ LF.

Definition no_callback_message : string :=
  "Error: Lua handler provides no " +:+ UH_LUA_CB +:+ "() callback." +:+ LF.

(** How [uh_lua_state_init] ends, from what loading and running the script
    do; [w] and [l] are the world and the log it starts with. *)
Definition uh_lua_state_init_outcome (w : world) (l : list api_call) : result unit :=
  let l1 := (l ++ api_calls ++ [A_loadfile (lua_handler conf)])%list in
  match rt_loadfile rt (lua_handler conf) w with
  | inl e =>
      Exit 1 (after_call [load_message e] [] api_state
                (write_stderr (init_error_message "loading" (load_message e)) w) l1)
  | inr id =>
      let l2 := (l1 ++ [A_pcall 0 0 0 (LClosure id) []])%list in
      match rt_call rt (LClosure id) [] api_state w with
      | Returns vals L' w' =>
          let f := default LNil (globals L' !! UH_LUA_CB) in
          let l3 := (l2 ++ [A_getglobal UH_LUA_CB])%list in
          if is_function f
          then Ok tt (after_call [f] [] L' w' l3)
          else Exit 1 (after_call [f] [] L' (write_stderr no_callback_message w') l3)
      | Fails e L' w' =>
          Exit 1 (after_call [tostring_convert (error_object e)] [] L'
                    (write_stderr (init_error_message "initializing" (error_object e)) w') l2)
      | Exits code L' w' => Exit code (after_call [] [] L' w' l2)
      | Loops =>
          Diverge (mk_process
                     (mk_lua_State [LClosure id] (globals api_state) (tables api_state)) w l2)
      end
  end.

(** *** Further definitions for the statements *)

(** The value the process variables [vars] give to the name [k]: the value
    of the last variable of that name that has one. *)
Fixpoint last_value (k : string) (vars : list env_var) : option string :=
  match vars with
  | [] => None
  | var :: rest =>
      match last_value k rest with
      | Some value => Some value
      | None => if decide (var_name var = k) then var_value var else None
      end
  end.

(** The reads without the failures the loop retries. *)
Fixpoint drop_retried (rs : list read_outcome) : list read_outcome :=
  match rs with
  | [] => []
  | ReadFail e pl :: rest =>
      if retry e pl then drop_retried rest else ReadFail e pl :: drop_retried rest
  | ReadBytes s :: rest => ReadBytes s :: drop_retried rest
  end.

(** A value [luaL_checknumber] takes for a number. *)
Definition reads_as_number (v : lua_value) : bool :=
  match v with
  | LNumber _ => true
  | LString s => bool_decide (is_Some (rt_str2number rt s))
  | _ => false
  end.

(** The message of a failed URL conversion. *)
Definition conversion_error (out_len : Z) : string :=
  (if out_len =? -1 then "buffer overflow" else "malformed string") +:+
  " on URL conversion" +:+ LF.

(** What the call of the handler does in the child process [p] of a
    request: the call [lua_main] makes, on the callback [p] has as global
    and the environment table of the request. *)
Definition handler_call (cl : client) (pi : path_info) (url : string) (p : process)
  : call_outcome :=
  call_value rt (default LNil (globals (p_lua p) !! UH_LUA_CB))
    [LTable (length (tables (p_lua p)))]
    (mk_lua_State (stack (p_lua p)) (globals (p_lua p))
       (tables (p_lua p) ++ [env_table cl pi url]))
    (p_world p).

(** What running the loaded handler script does at start-up. *)
Definition script_run (id : nat) (w : world) : call_outcome :=
  rt_call rt (LClosure id) [] api_state w.

(** * Properties *)

(** ** The stack and the monad *)

Lemma stack_pos_neg (n k : nat) :
  (k < n)%nat -> stack_pos n (- Z.of_nat (S k)) = Some k.
Proof.
  intros Hk. unfold stack_pos.
  destruct (Z.ltb_spec 0 (- Z.of_nat (S k))); [lia|].
  destruct (Z.ltb_spec (- Z.of_nat (S k)) 0); [|lia].
  destruct (Z.leb_spec (- - Z.of_nat (S k)) (Z.of_nat n)); [|lia].
  f_equal. lia.
Qed.

Lemma value_at_top (a : lua_value) st g t :
  value_at (mk_lua_State (a :: st) g t) (-1) = Some a.
Proof.
  unfold value_at. cbn [stack length].
  change (-1) with (- Z.of_nat 1). rewrite stack_pos_neg by lia. reflexivity.
Qed.

Lemma value_at_second (a b : lua_value) st g t :
  value_at (mk_lua_State (a :: b :: st) g t) (-2) = Some b.
Proof.
  unfold value_at. cbn [stack length].
  change (-2) with (- Z.of_nat 2). rewrite stack_pos_neg by lia. reflexivity.
Qed.

Lemma value_at_third (a b c : lua_value) st g t :
  value_at (mk_lua_State (a :: b :: c :: st) g t) (-3) = Some c.
Proof.
  unfold value_at. cbn [stack length].
  change (-3) with (- Z.of_nat 3). rewrite stack_pos_neg by lia. reflexivity.
Qed.

Lemma value_at_bottom (a : lua_value) g t :
  value_at (mk_lua_State [a] g t) 1 = Some a.
Proof. reflexivity. Qed.

(** Unfolding of the monad operations and of the API calls down to the
    state they build. *)
Ltac unfold_api :=
  unfold lua_newtable, lua_getglobal, lua_setglobal, lua_pushvalue,
    lua_pushcfunction, lua_pushstring, lua_pushlstring, lua_pushnumber,
    lua_setfield, lua_isfunction, lua_isnil, luaL_pushresult,
    lua_open, luaL_openlibs, printf, fprintf_stderr, get_errno,
    push, pop, index, set_stack, log, get_lua, put_lua, get_world, put_world,
    raise, exit, undefined.

Ltac run := unfold_api; unfold mbind, M_bind, mret, M_ret; cbn.

Lemma setfield_under_top (r : nat) (k : string) (v : lua_value) (p : process) st :
  stack (p_lua p) = v :: LTable r :: st ->
  (r < length (tables (p_lua p)))%nat ->
  lua_setfield (-2) k p =
    Ok tt (mk_process
             (mk_lua_State (LTable r :: st) (globals (p_lua p))
                (alter (tbl_set (LString k) v) r (tables (p_lua p))))
             (p_world p) (p_log p ++ [A_setfield (-2) k])).
Proof.
  destruct p as [[s g t] w l]. cbn. intros -> Hr.
  run. rewrite value_at_second. cbn.
  destruct (lookup_lt_is_Some_2 t r Hr) as [tb Htb]. rewrite Htb.
  do 3 f_equal. apply list_eq. intros i.
  destruct (decide (i = r)) as [->|Hne].
  - rewrite list_lookup_insert_eq by done. rewrite list_lookup_alter_eq, Htb. done.
  - rewrite list_lookup_insert_ne by done. rewrite list_lookup_alter_ne by done. done.
Qed.

Lemma with_table_on_top r f calls p :
  table_on_top r p -> table_on_top r (with_table r f calls p).
Proof.
  intros [[st Hst] Hr]. split; cbn; [eauto|]. by rewrite length_alter.
Qed.

Lemma with_table_compose r f1 f2 c1 c2 p :
  with_table r f2 c2 (with_table r f1 c1 p) = with_table r (f2 ∘ f1) (c1 ++ c2) p.
Proof.
  unfold with_table. cbn. rewrite list_alter_alter_eq, app_assoc. reflexivity.
Qed.

Lemma with_table_id r p :
  with_table r id [] p = p.
Proof.
  destruct p as [[s g t] w l]. unfold with_table. cbn.
  rewrite list_alter_id by done. by rewrite app_nil_r.
Qed.

Lemma with_table_ext r f g calls p :
  (forall t, f t = g t) -> with_table r f calls p = with_table r g calls p.
Proof.
  intros H. unfold with_table. do 2 f_equal. apply list_alter_ext; [auto|done].
Qed.

(** A push followed by [lua_setfield(L, -2, k)]. *)
Lemma pushstring_setfield r k s p :
  table_on_top r p ->
  (lua_pushstring (Some s) ;; lua_setfield (-2) k) p =
    Ok tt (with_table r (tbl_set (LString k) (LString s))
             [A_pushstring (Some s); A_setfield (-2) k] p).
Proof.
  intros [[st Hst] Hr]. destruct p as [[s0 g t] w l]. cbn in *. subst s0.
  unfold lua_pushstring, push, log, get_lua, put_lua, mbind, M_bind. cbn.
  erewrite setfield_under_top; [|reflexivity|done]. cbn.
  unfold with_table. cbn. by rewrite <- app_assoc.
Qed.

Lemma pushlstring_setfield r k s p :
  table_on_top r p ->
  (lua_pushlstring s ;; lua_setfield (-2) k) p =
    Ok tt (with_table r (tbl_set (LString k) (LString s))
             [A_pushlstring s; A_setfield (-2) k] p).
Proof.
  intros [[st Hst] Hr]. destruct p as [[s0 g t] w l]. cbn in *. subst s0.
  unfold lua_pushlstring, push, log, get_lua, put_lua, mbind, M_bind. cbn.
  erewrite setfield_under_top; [|reflexivity|done]. cbn.
  unfold with_table. cbn. by rewrite <- app_assoc.
Qed.

Lemma pushnumber_setfield r k n p :
  table_on_top r p ->
  (lua_pushnumber n ;; lua_setfield (-2) k) p =
    Ok tt (with_table r (tbl_set (LString k) (LNumber n))
             [A_pushnumber n; A_setfield (-2) k] p).
Proof.
  intros [[st Hst] Hr]. destruct p as [[s0 g t] w l]. cbn in *. subst s0.
  unfold lua_pushnumber, push, log, get_lua, put_lua, mbind, M_bind. cbn.
  erewrite setfield_under_top; [|reflexivity|done]. cbn.
  unfold with_table. cbn. by rewrite <- app_assoc.
Qed.

Lemma pushcfunction_setfield r k f p :
  table_on_top r p ->
  (lua_pushcfunction f ;; lua_setfield (-2) k) p =
    Ok tt (with_table r (tbl_set (LString k) (LCFunction f))
             [A_pushcfunction f; A_setfield (-2) k] p).
Proof.
  intros [[st Hst] Hr]. destruct p as [[s0 g t] w l]. cbn in *. subst s0.
  unfold lua_pushcfunction, push, log, get_lua, put_lua, mbind, M_bind. cbn.
  erewrite setfield_under_top; [|reflexivity|done]. cbn.
  unfold with_table. cbn. by rewrite <- app_assoc.
Qed.

(** Sequencing after a computation whose result is known. *)
Lemma bind_ok {A B} (m : M A) (k : A -> M B) a p p' :
  m p = Ok a p' -> (m ≫= k) p = k a p'.
Proof. unfold mbind, M_bind. by intros ->. Qed.

Lemma bind_assoc {A B C} (m : M A) (f : A -> M B) (g : B -> M C) p :
  (m ≫= λ x, f x ≫= g) p = ((m ≫= f) ≫= g) p.
Proof. unfold mbind, M_bind. by destruct (m p). Qed.

(** *** The environment table *)

Lemma lua_main_vars_spec vars : forall r p,
  table_on_top r p ->
  lua_main_vars vars p = Ok tt (with_table r (vars_table vars) (vars_calls vars) p).
Proof.
  induction vars as [|var rest IH]; intros r p Htop; cbn.
  - unfold mret, M_ret. f_equal. exact (eq_sym (with_table_id r p)).
  - destruct (var_value var) as [value|]; [|by apply IH].
    rewrite bind_assoc.
    rewrite (bind_ok _ _ _ _ _ (pushstring_setfield r (var_name var) value p Htop)).
    rewrite (IH r) by by apply with_table_on_top.
    by rewrite with_table_compose.
Qed.

Lemma lua_main_path_info_spec pi url r p :
  table_on_top r p ->
  lua_main_path_info pi url p =
    Ok (fst (split_query pi url))
       (with_table r (path_table pi url) (path_calls pi url) p).
Proof.
  intros Htop. unfold lua_main_path_info, path_table, path_calls, path_info_field, split_query.
  destruct (strchr url "?") as [off|]; cbn [fst snd].
  - destruct (_ <? _).
    + rewrite (bind_ok _ _ _ _ _ (pushlstring_setfield r _ _ p Htop)). reflexivity.
    + unfold mbind, M_bind, mret, M_ret. f_equal. exact (eq_sym (with_table_id r p)).
  - destruct (_ <? _).
    + rewrite (bind_ok _ _ _ _ _ (pushlstring_setfield r _ _ p Htop)). reflexivity.
    + unfold mbind, M_bind, mret, M_ret. f_equal. exact (eq_sym (with_table_id r p)).
Qed.

(** [lua_main_env] always succeeds, and builds exactly [env_process]. *)
Lemma lua_main_env_spec cl pi url p :
  lua_main_env cl pi url p =
    Ok (fst (split_query pi url)) (env_process cl pi url p).
Proof.
  unfold lua_main_env.
  set (p1 := mk_process
               (mk_lua_State
                  (LTable (length (tables (p_lua p))) ::
                   default LNil (globals (p_lua p) !! UH_LUA_CB) :: stack (p_lua p))
                  (globals (p_lua p)) (tables (p_lua p) ++ [ [] ]))
               (p_world p) (p_log p ++ [A_getglobal UH_LUA_CB; A_newtable])).
  assert (Htop : table_on_top (length (tables (p_lua p))) p1).
  { split; cbn; [eauto|]. rewrite length_app. cbn. lia. }
  assert (H1 : (lua_getglobal UH_LUA_CB ;; lua_newtable) p = Ok tt p1).
  { destruct p as [[s g t] w l]. run. unfold p1. cbn. by rewrite <- app_assoc. }
  rewrite bind_assoc, (bind_ok _ _ _ _ _ H1).
  rewrite (bind_ok _ _ _ _ _ (lua_main_path_info_spec pi url _ p1 Htop)).
  rewrite (bind_ok _ _ _ _ _ (lua_main_vars_spec _ _ _ (with_table_on_top _ _ _ _ Htop))).
  rewrite with_table_compose.
  rewrite bind_assoc.
  rewrite (bind_ok _ _ _ _ _ (pushnumber_setfield _ "HTTP_VERSION" _ _ (with_table_on_top _ _ _ _ Htop))).
  rewrite with_table_compose.
  unfold mret, M_ret. f_equal.
  unfold with_table, env_process, p1, env_table, env_calls. cbn.
  rewrite alter_app_r_alt by lia. rewrite Nat.sub_diag. cbn. by rewrite <- !app_assoc.
Qed.

(** *** Tables *)

Lemma tbl_remove_In k k' v t :
  In (k', v) (tbl_remove k t) -> k' <> k /\ In (k', v) t.
Proof.
  induction t as [|[k0 v0] t IH]; cbn; [done|].
  destruct (decide (k0 = k)) as [->|Hne]; cbn.
  - intros H. destruct (IH H). auto.
  - intros [H|H]; [inversion H; subst; auto|]. destruct (IH H). auto.
Qed.

Lemma tbl_set_In k v k' v' t :
  In (k', v') (tbl_set k v t) ->
  (k' = k /\ v' = v) \/ (k' <> k /\ In (k', v') t).
Proof.
  unfold tbl_set. destruct (is_nil v).
  - intros H. right. by apply tbl_remove_In.
  - intros [H|H]; [inversion H; auto|]. right. by apply tbl_remove_In.
Qed.

Lemma tbl_get_remove_eq k t : tbl_get k (tbl_remove k t) = LNil.
Proof.
  induction t as [|[k0 v0] t IH]; cbn; [done|].
  destruct (decide (k0 = k)); cbn; [done|]. by rewrite decide_False.
Qed.

Lemma tbl_get_remove_ne k k' t : k <> k' -> tbl_get k' (tbl_remove k t) = tbl_get k' t.
Proof.
  intros Hne. induction t as [|[k0 v0] t IH]; cbn; [done|].
  destruct (decide (k0 = k)) as [->|]; cbn.
  - by rewrite decide_False.
  - destruct (decide (k0 = k')); done.
Qed.

Lemma tbl_get_set_eq k v t : tbl_get k (tbl_set k v t) = v.
Proof.
  unfold tbl_set. destruct v; cbn; rewrite ?decide_True by done; try done.
  apply tbl_get_remove_eq.
Qed.

Lemma tbl_get_set_ne k k' v t : k <> k' -> tbl_get k' (tbl_set k v t) = tbl_get k' t.
Proof.
  intros Hne. unfold tbl_set.
  destruct (is_nil v); cbn; rewrite ?decide_False by done; by apply tbl_get_remove_ne.
Qed.

Lemma tbl_set_Forall (P : lua_value * lua_value -> Prop) k v t :
  P (k, v) -> Forall P t -> Forall P (tbl_set k v t).
Proof.
  intros Hkv Ht. apply List.Forall_forall. intros [k' v'] Hin.
  destruct (tbl_set_In _ _ _ _ _ Hin) as [[-> ->]|[_ Hin']]; [done|].
  rewrite List.Forall_forall in Ht. by apply Ht.
Qed.

Lemma vars_table_Forall (P : lua_value * lua_value -> Prop) vars : forall t,
  (forall name value, P (LString name, LString value)) ->
  Forall P t -> Forall P (vars_table vars t).
Proof.
  induction vars as [|var rest IH]; intros t HP Ht; cbn [vars_table]; [done|].
  destruct (var_value var); [|by apply IH].
  apply IH; [done|]. by apply tbl_set_Forall.
Qed.

(** A variable without a value leaves its field as it was. *)
Lemma vars_table_get k vars : forall t,
  Forall (λ var, var_name var = k -> var_value var = None) vars ->
  tbl_get (LString k) (vars_table vars t) = tbl_get (LString k) t.
Proof.
  induction vars as [|var rest IH]; intros t Hv; cbn [vars_table]; [done|].
  inversion Hv as [|? ? Hvar Hrest]; subst.
  destruct (var_value var) as [value|] eqn:E; [|by apply IH].
  rewrite IH by done. apply tbl_get_set_ne.
  intros [= Heq]. specialize (Hvar Heq). congruence.
Qed.

Lemma string_entries_path_table pi url :
  Forall string_entry (path_table pi url []).
Proof.
  unfold path_table. destruct (path_info_field pi url); [|constructor].
  apply tbl_set_Forall; [by split|constructor].
Qed.

Lemma string_entries_vars_table pi url vars :
  Forall string_entry (vars_table vars (path_table pi url [])).
Proof.
  apply vars_table_Forall; [by split|]. apply string_entries_path_table.
Qed.

Lemma env_table_entries cl pi url :
  Forall (env_entry_ok cl) (env_table cl pi url).
Proof.
  unfold env_table. apply List.Forall_forall. intros [k v] Hin.
  destruct (tbl_set_In _ _ _ _ _ Hin) as [[-> ->]|[Hne Hin']].
  - exists "HTTP_VERSION". split; [done|]. by rewrite decide_True.
  - pose proof (string_entries_vars_table pi url
                  (get_process_vars ops cl (split_query pi url).1)) as Hall.
    rewrite List.Forall_forall in Hall. destruct (Hall _ Hin') as [Hk Hv]. cbn in *.
    destruct k; try discriminate. exists s. split; [done|].
    rewrite decide_False; [done|]. intros ->. by apply Hne.
Qed.

Lemma env_table_version cl pi url :
  tbl_get (LString "HTTP_VERSION") (env_table cl pi url) = LNumber (http_version_number cl).
Proof. apply tbl_get_set_eq. Qed.

Lemma env_process_top cl pi url p :
  value_at (p_lua (env_process cl pi url p)) (-1) = Some (LTable (length (tables (p_lua p)))) /\
  tables (p_lua (env_process cl pi url p)) !! length (tables (p_lua p)) = Some (env_table cl pi url).
Proof.
  split.
  - cbn. apply value_at_top.
  - cbn. rewrite lookup_app_r by lia. by rewrite Nat.sub_diag.
Qed.

(** C2, as the code has it: every entry of the table [lua_main] passes to
    the handler has a string as key; its value is a string too, except the
    value of HTTP_VERSION, which is a Lua number.  The table is on top of
    the stack when the handler is called. *)
Theorem env_table_string_keys (cl : client) (pi : path_info) (url : string) (p : process) :
  handler_env cl pi url p
    (λ env, Forall (env_entry_ok cl) env /\
            tbl_get (LString "HTTP_VERSION") env = LNumber (http_version_number cl))
    (λ _, True).
Proof.
  destruct (env_process_top cl pi url p) as [Htop Htab].
  eexists _, _, _, _. split; [apply lua_main_env_spec|].
  split; [exact Htop|]. split; [exact Htab|].
  split; [|done]. split; [apply env_table_entries | apply env_table_version].
Qed.

(** *** Strings and lengths *)

Lemma to_int_small z : 0 <= z <= INT_MAX -> to_int z = z.
Proof.
  unfold to_int, INT_MAX. intros H.
  rewrite Z.mod_small; lia.
Qed.

Lemma strchr_bound s c off : strchr s c = Some off -> (off < String.length s)%nat.
Proof.
  revert off. induction s as [|a s IH]; intros off; cbn; [done|].
  destruct (Ascii.eqb a c).
  - intros [= <-]. lia.
  - destruct (strchr s c) as [n|]; [|done]. intros [= <-].
    specialize (IH n eq_refl). lia.
Qed.

Lemma length_substring_0 s : forall m,
  (m <= String.length s)%nat -> String.length (substring 0 m s) = m.
Proof.
  induction s as [|a s IH]; intros [|m]; cbn; try done; try lia.
  intros H. rewrite IH; lia.
Qed.

Lemma substring_all s : substring 0 (String.length s) s = s.
Proof. induction s as [|a s IH]; cbn; [done|]. by rewrite IH. Qed.

Lemma substring_0_0 s : substring 0 0 s = "".
Proof. by destruct s. Qed.

Lemma substring_drop s : forall n m,
  (n <= m)%nat -> (m <= String.length s)%nat ->
  substring n (m - n) s = string_drop n (substring 0 m s).
Proof.
  induction s as [|a s IH]; intros n m Hnm Hm.
  - cbn in Hm. assert (m = 0%nat) by lia. assert (n = 0%nat) by lia. by subst.
  - destruct n as [|n].
    + by rewrite Nat.sub_0_r.
    + destruct m as [|m]; [lia|]. cbn in Hm. cbn. apply IH; lia.
Qed.

Lemma strchr_substring_None s c : forall off,
  strchr s c = Some off -> strchr (substring 0 off s) c = None.
Proof.
  induction s as [|a s IH]; intros off; cbn; [done|].
  destruct (Ascii.eqb a c) eqn:E.
  - by intros [= <-].
  - destruct (strchr s c) as [n|]; [|done]. intros [= <-]. cbn.
    rewrite E. by rewrite (IH n).
Qed.

Lemma strchr_drop_None s c : forall n,
  strchr s c = None -> strchr (string_drop n s) c = None.
Proof.
  induction s as [|a s IH]; intros [|n]; cbn; try done.
  destruct (Ascii.eqb a c); [done|].
  destruct (strchr s c) eqn:E; [done|]. intros _. by apply IH.
Qed.

Lemma strchr_path_portion url : strchr (path_portion url) "?" = None.
Proof.
  unfold path_portion. destruct (strchr url "?") as [off|] eqn:E; [|done].
  by apply strchr_substring_None.
Qed.

(** *** PATH_INFO *)

(** The field as lines 206 to 217 compute it, for lengths an [int] holds. *)
Lemma path_info_field_spec pi url :
  strlen url <= INT_MAX ->
  strlen (lua_prefix conf) <= INT_MAX ->
  path_info_field pi url =
    if strlen (lua_prefix conf) <? strlen (path_portion url)
    then Some (string_drop (String.length (lua_prefix conf)) (path_portion url))
    else None.
Proof.
  unfold strlen. intros Hu Hp.
  unfold path_info_field, split_query, path_portion.
  rewrite (to_int_small (strlen (lua_prefix conf))) by (unfold strlen; lia).
  destruct (strchr url "?") as [off|] eqn:E; cbn [snd].
  - pose proof (strchr_bound _ _ _ E) as Hoff.
    rewrite to_int_small by lia.
    unfold strlen. rewrite length_substring_0 by lia.
    destruct (Z.ltb_spec (Z.of_nat (String.length (lua_prefix conf))) (Z.of_nat off)); [|done].
    f_equal. rewrite Nat2Z.id.
    replace (Z.to_nat (Z.of_nat off - Z.of_nat (String.length (lua_prefix conf))))
      with (off - String.length (lua_prefix conf))%nat by lia.
    apply substring_drop; lia.
  - rewrite to_int_small by (unfold strlen; lia). unfold strlen.
    destruct (Z.ltb_spec (Z.of_nat (String.length (lua_prefix conf)))
                (Z.of_nat (String.length url))); [|done].
    f_equal. rewrite Nat2Z.id.
    replace (Z.to_nat (Z.of_nat (String.length url) - Z.of_nat (String.length (lua_prefix conf))))
      with (String.length url - String.length (lua_prefix conf))%nat by lia.
    rewrite substring_drop by lia. by rewrite substring_all.
Qed.

Lemma split_query_query pi url :
  query_recorded pi url (split_query pi url).1.
Proof.
  unfold query_recorded, split_query, query_portion.
  by destruct (strchr url "?").
Qed.

(** C10, as the code has it: when the host gives no value to a variable
    named PATH_INFO (a value it gives replaces the field), PATH_INFO is set
    exactly when the path portion of the URL is longer than the prefix, to
    the path portion without its first strlen(prefix) bytes; it holds no
    question mark, and the URL from its first question mark on is recorded
    in pi->query.  The lengths are those an int holds. *)
Theorem path_info_after_prefix (cl : client) (pi : path_info) (url : string) (p : process) :
  strlen url <= INT_MAX ->
  strlen (lua_prefix conf) <= INT_MAX ->
  host_leaves "PATH_INFO" cl ->
  handler_env cl pi url p
    (λ env, path_info_of_path url env /\
            forall s, tbl_get (LString "PATH_INFO") env = LString s -> strchr s "?" = None)
    (query_recorded pi url).
Proof.
  intros Hu Hp Hhost.
  destruct (env_process_top cl pi url p) as [Htop Htab].
  eexists _, _, _, _. split; [apply lua_main_env_spec|].
  split; [exact Htop|]. split; [exact Htab|].
  assert (Hget : path_info_of_path url (env_table cl pi url)).
  { unfold path_info_of_path, env_table.
    rewrite tbl_get_set_ne by done.
    rewrite vars_table_get by apply Hhost.
    unfold path_table. rewrite path_info_field_spec by done.
    destruct (_ <? _); [|done]. by rewrite tbl_get_set_eq. }
  split; [split; [exact Hget|]|apply split_query_query].
  intros s Hs. rewrite Hget in Hs.
  destruct (_ <? _); [|done]. injection Hs as <-.
  apply strchr_drop_None, strchr_path_portion.
Qed.

(** *** Reading *)

Lemma append_cons a s t : String a s +:+ t = String a (s +:+ t).
Proof. reflexivity. Qed.

Lemma append_nil_r s : s +:+ "" = s.
Proof. induction s as [|a s IH]; [done|]. by rewrite append_cons, IH. Qed.

Lemma append_assoc s t u : (s +:+ t) +:+ u = s +:+ (t +:+ u).
Proof. induction s as [|a s IH]; [done|]. by rewrite !append_cons, IH. Qed.

Lemma strlen_append s t : strlen (s +:+ t) = strlen s + strlen t.
Proof.
  unfold strlen. induction s as [|a s IH]; [done|].
  rewrite append_cons. cbn [String.length]. lia.
Qed.

Lemma strlen_nonneg s : 0 <= strlen s.
Proof. unfold strlen. lia. Qed.

Lemma strlen_0 s : strlen s = 0 -> s = "".
Proof. destruct s; [done|]. unfold strlen. cbn. lia. Qed.

(** The requested length plays no part once it is positive. *)
Lemma recv_loop_any_length len len' rs : forall B data_len errno,
  0 < len -> 0 < len' ->
  recv_loop len rs B data_len errno = recv_loop len' rs B data_len errno.
Proof.
  intros B dl e Hl Hl'. revert B dl e.
  induction rs as [|o rs IH]; intros B dl e; cbn [recv_loop].
  - destruct (Z.ltb_spec 0 len); [|lia]. destruct (Z.ltb_spec 0 len'); [|lia]. done.
  - destruct (Z.ltb_spec 0 len); [|lia]. destruct (Z.ltb_spec 0 len'); [|lia].
    destruct o as [s|e' pl]; by rewrite ?IH.
Qed.

(** The failed reads the loop retries. *)
Lemma retry_spec (e : Z) (pl : poll_outcome) :
  retry e pl = true <->
    e = EINTR \/
    (e = EAGAIN \/ e = EWOULDBLOCK) /\
    (Z.land (revents pl) POLLIN <> 0 \/ errno_after_poll e pl = EINTR).
Proof.
  clear. unfold retry.
  destruct (Z.eqb_spec e EWOULDBLOCK) as [Hw|Hw], (Z.eqb_spec e EAGAIN) as [Ha|Ha];
    cbn [orb]; rewrite ?orb_true_iff, ?negb_true_iff, ?Z.eqb_eq, ?Z.eqb_neq;
    unfold EINTR, EWOULDBLOCK, EAGAIN in *; intuition lia.
Qed.

(** One turn of the loop on a failed read. *)
Lemma recv_loop_fail len e pl rest B data_len :
  exists errno', forall errno,
    recv_loop len (ReadFail e pl :: rest) B data_len errno =
      if 0 <? len then
        if retry e pl then recv_loop len rest B data_len errno'
        else (B, (if data_len =? 0 then -1 else data_len), rest, errno')
      else (B, data_len, ReadFail e pl :: rest, errno).
Proof.
  cbn [recv_loop]. unfold retry. destruct (0 <? len); [|by exists 0].
  destruct ((e =? EWOULDBLOCK) || (e =? EAGAIN)).
  - exists (errno_after_poll e pl). intros _.
    destruct (negb (Z.land (revents pl) POLLIN =? 0)); [done|].
    by destruct (errno_after_poll e pl =? EINTR).
  - exists e. intros _. by destruct (e =? EINTR).
Qed.

(** The loop makes the reads of [reads_made] and collects their bytes. *)
Lemma recv_loop_reads len rs : forall B data_len errno,
  0 < len -> Forall chunk_fits rs ->
  exists data_len' errno',
    recv_loop len rs B data_len errno =
      (B +:+ bytes_of (reads_made rs), data_len',
       drop (length (reads_made rs)) rs, errno').
Proof.
  intros B dl e Hl. revert B dl e.
  induction rs as [|o rs IH]; intros B dl e Hfit.
  - cbn [recv_loop]. destruct (Z.ltb_spec 0 len); [|lia]. cbn. rewrite append_nil_r. eauto.
  - inversion Hfit as [|? ? Ho Hrs]; subst.
    destruct o as [s|e' pl]; cbn [reads_made stops_reading].
    2:{ destruct (recv_loop_fail len e' pl rs B dl) as (e1 & He1). rewrite He1.
        destruct (Z.ltb_spec 0 len); [|lia].
        destruct (retry e' pl); cbn [negb bytes_of length drop].
        - apply IH, Hrs.
        - rewrite append_nil_r. eauto. }
    cbn [recv_loop]. destruct (Z.ltb_spec 0 len); [|lia].
    + cbn in Ho. destruct (Z.eqb_spec (strlen s) 0) as [H0|H0]; cbn [orb].
      * cbn. rewrite (strlen_0 _ H0), append_nil_r. eauto.
      * destruct (Z.eqb_spec (strlen s) LUAL_BUFFERSIZE) as [Hfull|Hshort]; cbn [negb].
        -- destruct (Z.ltb_spec (strlen s) LUAL_BUFFERSIZE); [lia|].
           cbn [bytes_of length drop].
           destruct (IH (B +:+ s) (to_int (dl + strlen s)) e Hrs) as (dl' & e'' & ->).
           rewrite append_assoc. eauto.
        -- destruct (Z.ltb_spec (strlen s) LUAL_BUFFERSIZE); [|lia].
           cbn. rewrite append_nil_r. eauto.
Qed.

(** The loop with its count: [data_len] is the number of bytes collected,
    or -1 when an error that is not retried comes before any byte.  The
    bytes to come are no more than an [int] counts. *)
Lemma recv_loop_spec len rs : forall B data_len errno,
  0 < len -> Forall chunk_fits rs ->
  0 <= data_len -> data_len + strlen (bytes_of rs) <= INT_MAX ->
  exists errno',
    recv_loop len rs B data_len errno =
      (B +:+ bytes_of (reads_made rs),
       (if fatal_error (reads_made rs) && (data_len + strlen (bytes_of (reads_made rs)) =? 0)
        then -1 else data_len + strlen (bytes_of (reads_made rs))),
       drop (length (reads_made rs)) rs, errno').
Proof.
  intros B dl e Hl. revert B dl e.
  induction rs as [|o rs IH]; intros B dl e Hfit Hdl Hmax.
  - cbn [recv_loop]. destruct (Z.ltb_spec 0 len); [|lia].
    cbn. rewrite append_nil_r, Z.add_0_r. eauto.
  - inversion Hfit as [|? ? Ho Hrs]; subst.
    destruct o as [s|e' pl]; cbn [reads_made stops_reading].
    2:{ cbn [bytes_of] in Hmax.
        destruct (recv_loop_fail len e' pl rs B dl) as (e1 & He1). rewrite He1.
        destruct (Z.ltb_spec 0 len); [|lia].
        destruct (retry e' pl) eqn:Er; cbn [negb bytes_of length drop].
        - cbn [fatal_error existsb]. rewrite Er. cbn [orb negb]. apply IH; done.
        - cbn [fatal_error existsb]. rewrite Er. cbn.
          rewrite append_nil_r, Z.add_0_r. eauto. }
    cbn [recv_loop]. destruct (Z.ltb_spec 0 len); [|lia].
    + cbn in Ho. cbn [bytes_of] in Hmax. rewrite strlen_append in Hmax.
      pose proof (strlen_nonneg s). pose proof (strlen_nonneg (bytes_of rs)).
      destruct (Z.eqb_spec (strlen s) 0) as [Hz|Hz]; cbn [orb].
      * cbn. rewrite (strlen_0 _ Hz), append_nil_r. cbn. rewrite Z.add_0_r. eauto.
      * rewrite to_int_small by lia.
        destruct (Z.eqb_spec (strlen s) LUAL_BUFFERSIZE) as [Hfull|Hshort]; cbn [negb].
        -- destruct (Z.ltb_spec (strlen s) LUAL_BUFFERSIZE); [lia|].
           cbn [bytes_of length drop fatal_error existsb orb].
           destruct (IH (B +:+ s) (dl + strlen s) e Hrs) as (e'' & ->); [lia|lia|].
           rewrite append_assoc, strlen_append, !Z.add_assoc. eauto.
        -- destruct (Z.ltb_spec (strlen s) LUAL_BUFFERSIZE); [|lia].
           cbn. rewrite append_nil_r. eauto.
Qed.

Lemma bytes_of_reads_made_bound rs :
  strlen (bytes_of (reads_made rs)) <= strlen (bytes_of rs).
Proof.
  induction rs as [|o rs IH]; cbn [reads_made]; [done|].
  destruct (stops_reading o).
  - destruct o; cbn [bytes_of]; rewrite ?strlen_append, ?append_nil_r.
    + pose proof (strlen_nonneg (bytes_of rs)). change (strlen "") with 0. lia.
    + apply strlen_nonneg.
  - destruct o; cbn [bytes_of]; rewrite ?strlen_append; lia.
Qed.

Lemma pending_set_pending_eq fd rs w e :
  pending (set_errno e (set_pending fd rs w)) fd = rs.
Proof. unfold pending. cbn. by rewrite lookup_insert_eq. Qed.

Lemma pending_set_pending_ne fd fd' rs w e :
  fd' <> fd -> pending (set_errno e (set_pending fd rs w)) fd' = pending w fd'.
Proof. intros H. unfold pending. cbn. by rewrite lookup_insert_ne. Qed.

Lemma lua_remove_at (k : nat) st g t w l :
  (k < length st)%nat ->
  lua_remove (- Z.of_nat (S k)) (mk_process (mk_lua_State st g t) w l) =
    Ok tt (mk_process (mk_lua_State (take k st ++ drop (S k) st) g t) w
             (l ++ [A_remove (- Z.of_nat (S k))])).
Proof.
  intros Hk. unfold lua_remove. run. rewrite stack_pos_neg by done.
  destruct (decide _) as [?|Hn]; [|lia]. reflexivity.
Qed.

(** What [uh_lua_recv] does after the loop. *)
Lemma uh_lua_recv_results (B : string) (data_len : Z) (p : process) :
  exists p',
    (luaL_pushresult B ;;
     lua_pushnumber (inject_Z data_len) ;;
     if 0 <? data_len
     then lua_pushvalue (-2) ;; lua_remove (-3) ;; mret 2
     else lua_remove (-2) ;; mret 1) p
    = Ok (if 0 <? data_len then 2 else 1) p' /\
    p_world p' = p_world p /\
    results (if 0 <? data_len then 2 else 1) p' =
      if 0 <? data_len then [LNumber (inject_Z data_len); LString B]
      else [LNumber (inject_Z data_len)].
Proof.
  destruct p as [[st g t] w l]. destruct (0 <? data_len).
  - run. rewrite value_at_second. cbn.
    change (-3) with (- Z.of_nat 3). rewrite lua_remove_at by (cbn; lia). cbn.
    eexists. split; [reflexivity|]. done.
  - run.
    change (-2) with (- Z.of_nat 2). rewrite lua_remove_at by (cbn; lia). cbn.
    eexists. split; [reflexivity|]. done.
Qed.

Lemma luaL_checknumber_number (narg : Z) (d : lua_Number) (p : process) :
  value_at (p_lua p) narg = Some (LNumber d) ->
  luaL_checknumber rt narg p = Ok d p.
Proof.
  intros H. unfold luaL_checknumber. run. by rewrite H.
Qed.

(** [uh_lua_recv] on a number: the reads made, the results, and what is
    left to read. *)
Lemma uh_lua_recv_spec (p : process) (d : lua_Number) :
  let rs := pending (p_world p) STDIN_FILENO in
  let made := reads_of_call (int_of_number d) rs in
  value_at (p_lua p) 1 = Some (LNumber d) ->
  Forall chunk_fits rs ->
  strlen (bytes_of rs) <= INT_MAX ->
  exists p',
    uh_lua_recv p = Ok (Z.of_nat (length (recv_results made))) p' /\
    results (Z.of_nat (length (recv_results made))) p' = recv_results made /\
    pending (p_world p') STDIN_FILENO = drop (length made) rs /\
    (forall fd, fd <> STDIN_FILENO -> pending (p_world p') fd = pending (p_world p) fd).
Proof.
  intros rs made Harg Hfit Hmax. unfold uh_lua_recv.
  rewrite (bind_ok _ _ _ _ _ (luaL_checknumber_number 1 d p Harg)).
  unfold get_world at 1. unfold mbind at 1, M_bind at 1.
  fold rs.
  assert (Hloop : exists errno',
    recv_loop (int_of_number d) rs "" 0 (w_errno (p_world p)) =
      (bytes_of made,
       (if 0 <? strlen (bytes_of made) then strlen (bytes_of made)
        else if fatal_error made then -1 else 0),
       drop (length made) rs, errno')).
  { unfold made, reads_of_call.
    destruct (Z.ltb_spec 0 (int_of_number d)) as [Hpos|Hneg].
    - destruct (recv_loop_spec (int_of_number d) rs "" 0 (w_errno (p_world p)))
        as (e' & ->); [done|done|lia|lia|].
      exists e'. cbn [String.append]. rewrite Z.add_0_l.
      pose proof (strlen_nonneg (bytes_of (reads_made rs))).
      destruct (Z.ltb_spec 0 (strlen (bytes_of (reads_made rs)))).
      + destruct (Z.eqb_spec (strlen (bytes_of (reads_made rs))) 0); [lia|].
        by rewrite andb_false_r.
      + destruct (Z.eqb_spec (strlen (bytes_of (reads_made rs))) 0); [|lia].
        rewrite andb_true_r. destruct (fatal_error _); [done|]. f_equal. f_equal. f_equal. lia.
    - exists (w_errno (p_world p)). destruct rs; cbn [recv_loop];
        destruct (Z.ltb_spec 0 (int_of_number d)); try lia; done. }
  destruct Hloop as (e' & ->).
  set (dl := if 0 <? strlen (bytes_of made) then _ else _).
  set (w' := set_errno e' (set_pending STDIN_FILENO (drop (length made) rs) (p_world p))).
  destruct (uh_lua_recv_results (bytes_of made) dl
              (mk_process (p_lua p) w' (p_log p))) as (p' & Hrun & Hw & Hres).
  assert (Hdl : (0 <? dl) = (0 <? strlen (bytes_of made))).
  { unfold dl. destruct (Z.ltb_spec 0 (strlen (bytes_of made))) as [H|H].
    - by apply Z.ltb_lt.
    - destruct (fatal_error made); done. }
  assert (Hlen : Z.of_nat (length (recv_results made)) = if 0 <? dl then 2 else 1).
  { rewrite Hdl. unfold recv_results. by destruct (0 <? strlen (bytes_of made)). }
  exists p'. rewrite Hlen. split; [|split; [|split]].
  - rewrite <- Hrun. unfold put_world, mbind, M_bind. reflexivity.
  - rewrite Hres. unfold recv_results. rewrite Hdl. unfold dl.
    by destruct (0 <? strlen (bytes_of made)).
  - rewrite Hw. apply pending_set_pending_eq.
  - intros fd Hfd. rewrite Hw. cbn [p_world]. by apply pending_set_pending_ne.
Qed.

(** Whatever the reads are, the loop consumes a prefix of them and collects
    its bytes. *)
Lemma recv_loop_prefix len rs : forall B data_len errno,
  exists used data_len' errno',
    recv_loop len rs B data_len errno =
      (B +:+ bytes_of used, data_len', drop (length used) rs, errno') /\
    rs = (used ++ drop (length used) rs)%list.
Proof.
  induction rs as [|o rs IH]; intros B dl e.
  - cbn [recv_loop]. exists []. cbn. rewrite append_nil_r. destruct (0 <? len); eauto.
  - destruct o as [s|e' pl].
    2:{ destruct (recv_loop_fail len e' pl rs B dl) as (e1 & He1). rewrite He1.
        destruct (0 <? len); [|exists []; cbn; rewrite append_nil_r; eauto].
        destruct (retry e' pl).
        - destruct (IH B dl e1) as (used & dl' & e'' & -> & Hrs).
          exists (ReadFail e' pl :: used). cbn. eexists _, _. split; [done|]. by f_equal.
        - exists [ReadFail e' pl]. cbn. rewrite append_nil_r. eauto. }
    cbn [recv_loop].
    destruct (0 <? len); [|exists []; cbn; rewrite append_nil_r; eauto].
    + destruct (strlen s =? 0) eqn:E0.
      * exists [ReadBytes s]. cbn. apply Z.eqb_eq, strlen_0 in E0. subst s.
        rewrite append_nil_r. cbn. eauto.
      * destruct (negb (strlen s =? LUAL_BUFFERSIZE)).
        -- exists [ReadBytes s]. cbn. rewrite append_nil_r. eauto.
        -- destruct (IH (B +:+ s) (to_int (dl + strlen s)) e)
             as (used & dl' & e'' & -> & Hrs).
           exists (ReadBytes s :: used). cbn. rewrite append_assoc.
           eexists _, _. split; [done|]. by f_equal.
Qed.

Lemma luaL_checknumber_outcome (narg : Z) (p : process) :
  (exists d, luaL_checknumber rt narg p = Ok d p) \/
  (exists e, luaL_checknumber rt narg p = Raise e p).
Proof.
  unfold luaL_checknumber. run.
  destruct (value_at (p_lua p) narg) as [[]|]; eauto.
  destruct (rt_str2number rt s); eauto.
Qed.

Lemma uh_lua_recv_reads_only_stdin : reads_only_stdin uh_lua_recv.
Proof.
  intros q. unfold uh_lua_recv.
  destruct (luaL_checknumber_outcome 1 q) as [[d Hd]|[e He]].
  - rewrite (bind_ok _ _ _ _ _ Hd).
    unfold get_world at 1. unfold mbind at 1, M_bind at 1.
    destruct (recv_loop_prefix (int_of_number d) (pending (p_world q) STDIN_FILENO) "" 0
                (w_errno (p_world q))) as (used & dl & e' & -> & Hrs).
    cbn [String.append] in *.
    set (w' := set_errno e' (set_pending STDIN_FILENO _ (p_world q))).
    destruct (uh_lua_recv_results (bytes_of used) dl (mk_process (p_lua q) w' (p_log q)))
      as (p' & Hrun & Hw & Hres).
    unfold put_world at 1. unfold mbind at 1, M_bind at 1.
    change ("" +:+ bytes_of used) with (bytes_of used).
    rewrite Hrun. split.
    + exists used. rewrite Hw. cbn [p_world]. unfold w'.
      rewrite pending_set_pending_eq. split; [done|].
      destruct (0 <? dl); [|done]. intros _. rewrite Hres. eauto.
    + intros fd Hfd. rewrite Hw. cbn [p_world]. by apply pending_set_pending_ne.
  - unfold mbind at 1, M_bind at 1. by rewrite He.
Qed.

Lemma recv_loop_no_length len rs B data_len errno :
  len <= 0 -> recv_loop len rs B data_len errno = (B, data_len, rs, errno).
Proof.
  intros Hlen. destruct rs; cbn [recv_loop];
    destruct (Z.ltb_spec 0 len); try lia; reflexivity.
Qed.

Lemma pending_set_pending_same fd fd' w e :
  pending (set_errno e (set_pending fd (pending w fd) w)) fd' = pending w fd'.
Proof.
  destruct (decide (fd' = fd)) as [->|Hne].
  - apply pending_set_pending_eq.
  - by apply pending_set_pending_ne.
Qed.

(** The conversion to [int] on the numbers whose integral part is an
    [int]. *)
Lemma int_of_number_truncate (d : lua_Number) :
  INT_MIN <= truncate d <= INT_MAX -> int_of_number d = truncate d.
Proof.
  intros [Hlo Hhi]. unfold int_of_number. cbn zeta.
  destruct (Z.leb_spec INT_MIN (truncate d)); [|lia].
  destruct (Z.leb_spec (truncate d) INT_MAX); [|lia]. reflexivity.
Qed.

Lemma truncate_positive (d : lua_Number) :
  (1 <= d)%Q -> (d < 2147483648)%Q -> 1 <= truncate d <= INT_MAX.
Proof.
  destruct d as [n m]. unfold Qle, Qlt, truncate, INT_MAX. cbn [Qnum Qden].
  intros H1 H2. rewrite Z.quot_div_nonneg by lia. split.
  - apply Z.div_le_lower_bound; lia.
  - cut (n / Z.pos m < 2147483648); [lia|]. apply Z.div_lt_upper_bound; lia.
Qed.

Lemma truncate_below_one (d : lua_Number) :
  (-2147483649 < d)%Q -> (d < 1)%Q -> INT_MIN <= truncate d <= 0.
Proof.
  destruct d as [n m]. unfold Qle, Qlt, truncate, INT_MIN. cbn [Qnum Qden].
  intros H1 H2. destruct (Z.le_gt_cases 0 n) as [Hn|Hn].
  - rewrite Z.quot_small by lia. lia.
  - replace n with (- (- n)) by lia. rewrite Z.quot_opp_l by lia.
    rewrite Z.quot_div_nonneg by lia.
    assert (0 <= (- n) / Z.pos m) by (apply Z.div_pos; lia).
    assert ((- n) / Z.pos m < 2147483649) by (apply Z.div_lt_upper_bound; lia).
    lia.
Qed.

(** A length of at least 1 that is an [int] converts to a positive [int]. *)
Lemma int_of_number_positive (d : lua_Number) :
  (1 <= d)%Q -> (d < 2147483648)%Q -> 0 < int_of_number d.
Proof.
  intros H1 H2. pose proof (truncate_positive d H1 H2) as Ht.
  rewrite int_of_number_truncate; unfold INT_MIN, INT_MAX in *; lia.
Qed.

(** A length below 1 within the range of [int] converts to no positive
    [int]. *)
Lemma int_of_number_below_one (d : lua_Number) :
  (-2147483649 < d)%Q -> (d < 1)%Q -> int_of_number d <= 0.
Proof.
  intros H1 H2. pose proof (truncate_below_one d H1 H2) as Ht.
  rewrite int_of_number_truncate; unfold INT_MIN, INT_MAX in *; lia.
Qed.

(** A call whose length converts to no positive [int] makes no read. *)
Lemma uh_lua_recv_no_read (p : process) (d : lua_Number) :
  value_at (p_lua p) 1 = Some (LNumber d) ->
  int_of_number d <= 0 ->
  exists p',
    uh_lua_recv p = Ok 1 p' /\
    results 1 p' = [LNumber (inject_Z 0)] /\
    (forall fd, pending (p_world p') fd = pending (p_world p) fd).
Proof.
  intros Harg Hlen. unfold uh_lua_recv.
  rewrite (bind_ok _ _ _ _ _ (luaL_checknumber_number 1 d p Harg)).
  unfold get_world at 1. unfold mbind at 1, M_bind at 1.
  rewrite recv_loop_no_length by done.
  unfold put_world at 1. unfold mbind at 1, M_bind at 1.
  destruct (uh_lua_recv_results "" 0
              (mk_process (p_lua p)
                 (set_errno (w_errno (p_world p))
                    (set_pending STDIN_FILENO (pending (p_world p) STDIN_FILENO) (p_world p)))
                 (p_log p))) as (p' & Hrun & Hw & Hres).
  cbn [Z.ltb Z.compare] in Hrun, Hres.
  exists p'. split; [exact Hrun|]. split; [exact Hres|]. rewrite Hw. cbn [p_world].
  intros fd. apply pending_set_pending_same.
Qed.

(** A call with a length of at least 1 that is an [int]: the reads made,
    the results, and what is left to read. *)
Lemma uh_lua_recv_positive (p : process) (d : lua_Number) :
  let rs := pending (p_world p) STDIN_FILENO in
  value_at (p_lua p) 1 = Some (LNumber d) ->
  (1 <= d)%Q -> (d < 2147483648)%Q ->
  Forall chunk_fits rs ->
  strlen (bytes_of rs) <= INT_MAX ->
  exists n p',
    uh_lua_recv p = Ok n p' /\
    results n p' = recv_results (reads_made rs) /\
    pending (p_world p') STDIN_FILENO = drop (length (reads_made rs)) rs.
Proof.
  intros rs Harg H1 H2 Hfit Hmax.
  destruct (uh_lua_recv_spec p d Harg Hfit Hmax) as (p' & Hrun & Hres & Hpend & _).
  pose proof (int_of_number_positive d H1 H2) as Hpos.
  unfold reads_of_call in *.
  destruct (Z.ltb_spec 0 (int_of_number d)); [|lia]. eauto.
Qed.

Lemma uh_lua_recv_reads_stdin : reads_stdin uh_lua_recv.
Proof. intros q d Harg H1 H2 Hfit Hmax. exact (uh_lua_recv_positive q d Harg H1 H2 Hfit Hmax). Qed.

(** *** The API table *)

Ltac run_stack :=
  run; repeat (first [rewrite value_at_top | rewrite value_at_second
                     | rewrite value_at_third]; cbn).

Lemma uh_lua_api_table_spec (p : process) :
  (lua_open ;; luaL_openlibs ;; uh_lua_api_table) p =
    Ok tt (mk_process api_state (p_world p) (p_log p ++ api_calls)).
Proof.
  destruct p as [[s g t] w l]. unfold uh_lua_api_table. run_stack.
  unfold api_state, api_calls, api_table. rewrite <- !app_assoc. cbn.
  repeat f_equal.
Qed.

(** *** Protected calls *)

Lemma lua_tostring_top v st g t w l :
  lua_tostring rt (-1) (mk_process (mk_lua_State (v :: st) g t) w l) =
    Ok (tostring_value v) (mk_process (mk_lua_State (tostring_convert v :: st) g t) w l).
Proof.
  unfold lua_tostring. run. change (-1) with (- Z.of_nat 1).
  rewrite stack_pos_neg by lia. by destruct v.
Qed.

Lemma lua_pcall_one a f st g t w l :
  lua_pcall rt 1 0 0 (mk_process (mk_lua_State (a :: f :: st) g t) w l) =
    pcall_result 1 f [a] st g t w l.
Proof.
  unfold lua_pcall, pcall_result, adjust_results.
  change (Z.to_nat 1) with 1%nat. change (Z.to_nat 0) with 0%nat. run.
  destruct (call_value rt f [a] _ w); reflexivity.
Qed.

Lemma lua_pcall_none f st g t w l :
  lua_pcall rt 0 0 0 (mk_process (mk_lua_State (f :: st) g t) w l) =
    pcall_result 0 f [] st g t w l.
Proof.
  unfold lua_pcall, pcall_result, adjust_results.
  change (Z.to_nat 0) with 0%nat. run.
  destruct (call_value rt f [] _ w); reflexivity.
Qed.

Lemma error_status_nonzero e : (error_status e =? 0) = false.
Proof. by destruct e. Qed.

(** *** lua_main *)

Lemma lua_main_unfold cl pi url p :
  lua_main cl pi url p =
    unprotected rt (lua_main_call (split_query pi url).1) (env_process cl pi url p).
Proof.
  unfold lua_main, lua_main_body, unprotected.
  by rewrite (bind_ok _ _ _ _ _ (lua_main_env_spec cl pi url p)).
Qed.

Lemma lua_main_call_spec pi a f st g t w l :
  unprotected rt (lua_main_call pi) (mk_process (mk_lua_State (a :: f :: st) g t) w l) =
    lua_main_outcome pi f [a] st g t w l.
Proof.
  unfold unprotected, lua_main_call, lua_main_outcome.
  unfold mbind at 1, M_bind at 1. rewrite lua_pcall_one. unfold pcall_result.
  destruct (call_value rt f [a] _ w) as [vals L' w'|e L' w'|code L' w'|]; try reflexivity.
  destruct ((error_status e =? LUA_ERRMEM) || (error_status e =? LUA_ERRRUN)); [|reflexivity].
  unfold luaL_checkstring, after_call. cbn [app].
  unfold mbind at 1 2 3, M_bind at 1 2 3.
  rewrite (bind_ok _ _ _ _ _ (lua_tostring_top _ _ _ _ _ _)).
  destruct (tostring_value (error_object e)) as [s|] eqn:Hs.
  - reflexivity.
  - assert (Hconv : tostring_convert (error_object e) = error_object e).
    { destruct (error_object e); try discriminate; reflexivity. }
    rewrite Hconv. run. rewrite value_at_top. cbn.
    rewrite lua_tostring_top. reflexivity.
Qed.

(** [lua_main], from the state of the child process to its end. *)
Lemma lua_main_spec cl pi url p :
  lua_main cl pi url p =
    lua_main_outcome (split_query pi url).1
      (default LNil (globals (p_lua p) !! UH_LUA_CB))
      [LTable (length (tables (p_lua p)))]
      (stack (p_lua p)) (globals (p_lua p))
      (tables (p_lua p) ++ [env_table cl pi url])
      (p_world p)
      (p_log p ++ [A_getglobal UH_LUA_CB; A_newtable] ++ env_calls cl pi url).
Proof.
  rewrite lua_main_unfold. unfold env_process. apply lua_main_call_spec.
Qed.

(** *** uh_lua_state_init *)

Lemma seq3_bind {A} (m1 m2 m3 : M unit) (k : M A) p :
  (m1 ;; m2 ;; m3 ;; k) p = ((m1 ;; m2 ;; m3) ;; k) p.
Proof.
  unfold mbind, M_bind. destruct (m1 p) as [[] p1| | | |]; try done.
  destruct (m2 p1) as [[] p2| | | |]; done.
Qed.

Lemma uh_lua_state_init_error_spec status v g t w l :
  uh_lua_state_init_error status (mk_process (mk_lua_State [v] g t) w l) =
    Exit 1 (mk_process (mk_lua_State [tostring_convert v] g t)
              (write_stderr (init_error_message status v) w) l).
Proof.
  unfold uh_lua_state_init_error, init_error_message.
  run. rewrite value_at_top. cbn.
  destruct (is_nil v) eqn:Hnil.
  - destruct v; try discriminate. reflexivity.
  - cbn. rewrite lua_tostring_top. reflexivity.
Qed.

Lemma luaL_loadfile_spec path st g t w l :
  luaL_loadfile rt path (mk_process (mk_lua_State st g t) w l) =
    match rt_loadfile rt path w with
    | inl e => Ok (load_status e)
                 (mk_process (mk_lua_State (load_message e :: st) g t) w (l ++ [A_loadfile path]))
    | inr id => Ok 0
                 (mk_process (mk_lua_State (LClosure id :: st) g t) w (l ++ [A_loadfile path]))
    end.
Proof.
  unfold luaL_loadfile. run. by destruct (rt_loadfile rt path w).
Qed.

Lemma uh_lua_state_init_spec (p : process) :
  uh_lua_state_init p = uh_lua_state_init_outcome (p_world p) (p_log p).
Proof.
  unfold uh_lua_state_init, uh_lua_state_init_outcome.
  rewrite seq3_bind, (bind_ok _ _ _ _ _ (uh_lua_api_table_spec p)).
  unfold mbind at 1, M_bind at 1. unfold api_state at 1. rewrite luaL_loadfile_spec.
  rewrite <- !app_assoc.
  destruct (rt_loadfile rt (lua_handler conf) (p_world p)) as [e|id].
  - assert (Hs : (load_status e =? 0) = false) by by destruct e.
    rewrite Hs. cbn [negb]. rewrite uh_lua_state_init_error_spec.
    unfold after_call.
    assert (Hc : tostring_convert (load_message e) = load_message e) by by destruct e.
    by rewrite Hc.
  - cbn [negb Z.eqb].
    unfold mbind at 1, M_bind at 1. rewrite lua_pcall_none. unfold pcall_result.
    unfold call_value. cbn [is_function].
    change (mk_lua_State [] (<["uhttpd":=LTable 0]> baselib) [api_table]) with api_state.
    rewrite <- !app_assoc.
    destruct (rt_call rt (LClosure id) [] api_state (p_world p))
      as [vals L' w'|e L' w'|code L' w'|]; try reflexivity.
    + cbn [negb Z.eqb]. unfold after_call. cbn [app].
      unfold lua_getglobal, lua_isfunction. run. rewrite value_at_top. cbn.
      rewrite <- !app_assoc.
      destruct (is_function (default LNil (globals L' !! UH_LUA_CB))); reflexivity.
    + rewrite error_status_nonzero. cbn [negb]. unfold after_call. cbn [app].
      by rewrite uh_lua_state_init_error_spec.
Qed.

(** *** Logs *)


Lemma pcalls_app l1 l2 : pcalls (l1 ++ l2) = (pcalls l1 + pcalls l2)%nat.
Proof. unfold pcalls. by rewrite filter_app, length_app. Qed.


Lemma pcalls_singleton c : pcalls [c] = if is_pcall c then 1%nat else 0%nat.
Proof. by destruct c. Qed.


Lemma pcalls_vars_calls vars : pcalls (vars_calls vars) = 0%nat.
Proof.
  induction vars as [|var rest IH]; [done|]. cbn [vars_calls].
  destruct (var_value var); done.
Qed.


Lemma pcalls_env_calls cl pi url : pcalls (env_calls cl pi url) = 0%nat.
Proof.
  unfold env_calls, path_calls. rewrite !pcalls_app, pcalls_vars_calls.
  by destruct (path_info_field pi url).
Qed.

(** In whatever way [lua_main] ends, its log is the log of the environment
    followed by the one protected call. *)
Lemma lua_main_outcome_log pi f args base g t w l :
  exists pf,
    final_process (lua_main_outcome pi f args base g t w l) = Some pf /\
    p_log pf = l ++ [A_pcall 1 0 0 f args].
Proof.
  unfold lua_main_outcome.
  destruct (call_value rt f args _ w) as [vals L' w'|e L' w'|code L' w'|]; cbn; eauto.
  destruct (_ || _); cbn; eauto.
  destruct (tostring_value (error_object e)); cbn; eauto.
Qed.


(** [lua_plugin_init] ends as [uh_lua_state_init] does, and returns 0 and
    the handlers with [lua_dispatch] added when that one returns. *)
Lemma lua_plugin_init_spec (handlers : list dispatch_handler) (p : process) :
  lua_plugin_init handlers p =
    match uh_lua_state_init_outcome (p_world p) (p_log p) with
    | Ok _ q => Ok (0, (handlers ++ [lua_dispatch])%list) q
    | Raise e q => Raise e q
    | Exit code q => Exit code q
    | Diverge q => Diverge q
    | Undefined => Undefined
    end.
Proof.
  unfold lua_plugin_init, unprotected, mbind, M_bind.
  rewrite uh_lua_state_init_spec. unfold uh_lua_state_init_outcome.
  destruct (rt_loadfile _ _ _); [done|].
  destruct (rt_call _ _ _ _ _); try done.
  destruct (is_function _); done.
Qed.


(** *** Failures *)

(** Each way for the script to fail at start-up ends the process with
    status 1. *)
Lemma uh_lua_state_init_failure (p : process) :
  (forall e, rt_loadfile rt (lua_handler conf) (p_world p) = inl e ->
     exists p', uh_lua_state_init p = Exit 1 p') /\
  (forall id e L' w',
     rt_loadfile rt (lua_handler conf) (p_world p) = inr id ->
     rt_call rt (LClosure id) [] api_state (p_world p) = Fails e L' w' ->
     exists p', uh_lua_state_init p = Exit 1 p') /\
  (forall id vals L' w',
     rt_loadfile rt (lua_handler conf) (p_world p) = inr id ->
     rt_call rt (LClosure id) [] api_state (p_world p) = Returns vals L' w' ->
     is_function (default LNil (globals L' !! UH_LUA_CB)) = false ->
     exists p', uh_lua_state_init p = Exit 1 p').
Proof.
  rewrite uh_lua_state_init_spec. unfold uh_lua_state_init_outcome.
  split; [|split].
  - intros e ->. eauto.
  - intros id e L' w' -> ->. eauto.
  - intros id vals L' w' -> -> ->. eauto.
Qed.

(** When the handler fails with a runtime or memory error whose error value
    is a string or a number, [lua_main] appends the 500 response to the
    output and exits with status 0. *)
Lemma lua_main_error_response (cl : client) (pi : path_info) (url : string) (p : process)
  (e : lua_error) (L' : lua_State) (w' : world) (s : string) :
  call_value rt (default LNil (globals (p_lua p) !! UH_LUA_CB))
    [LTable (length (tables (p_lua p)))]
    (mk_lua_State (stack (p_lua p)) (globals (p_lua p))
       (tables (p_lua p) ++ [env_table cl pi url]))
    (p_world p) = Fails e L' w' ->
  error_status e = LUA_ERRRUN \/ error_status e = LUA_ERRMEM ->
  tostring_value (error_object e) = Some s ->
  exists pf rest,
    lua_main cl pi url p = Exit 0 pf /\
    w_stdout (p_world pf) = w_stdout w' +:+ "Status: 500 Internal Server Error" +:+ rest.
Proof.
  intros Hcall Hstatus Hs. rewrite lua_main_spec. unfold lua_main_outcome.
  rewrite Hcall, Hs.
  assert (Hb : (error_status e =? LUA_ERRMEM) || (error_status e =? LUA_ERRRUN) = true).
  { destruct Hstatus as [-> | ->]; reflexivity. }
  rewrite Hb. eexists _, _. split; [reflexivity|]. reflexivity.
Qed.

(** When the error value is neither a string nor a number,
    [luaL_checkstring] throws outside any protected call: the process ends
    with EXIT_FAILURE and the output is left as the handler left it. *)
Lemma lua_main_error_no_response (cl : client) (pi : path_info) (url : string) (p : process)
  (e : lua_error) (L' : lua_State) (w' : world) :
  call_value rt (default LNil (globals (p_lua p) !! UH_LUA_CB))
    [LTable (length (tables (p_lua p)))]
    (mk_lua_State (stack (p_lua p)) (globals (p_lua p))
       (tables (p_lua p) ++ [env_table cl pi url]))
    (p_world p) = Fails e L' w' ->
  error_status e = LUA_ERRRUN \/ error_status e = LUA_ERRMEM ->
  tostring_value (error_object e) = None ->
  exists pf,
    lua_main cl pi url p = Exit EXIT_FAILURE pf /\
    w_stdout (p_world pf) = w_stdout w'.
Proof.
  intros Hcall Hstatus Hs. rewrite lua_main_spec. unfold lua_main_outcome.
  rewrite Hcall, Hs.
  assert (Hb : (error_status e =? LUA_ERRMEM) || (error_status e =? LUA_ERRRUN) = true).
  { destruct Hstatus as [-> | ->]; reflexivity. }
  rewrite Hb. eexists. split; reflexivity.
Qed.

(** A memory error always has a string as error value. *)
Lemma memory_error_is_string : tostring_value (error_object ErrMem) = Some "not enough memory".
Proof. reflexivity. Qed.

(** [lua_main] makes one protected call, however it ends. *)
Lemma lua_main_one_call (cl : client) (pi : path_info) (url : string) (p : process) :
  exists pf,
    final_process (lua_main cl pi url p) = Some pf /\
    pcalls (p_log pf) = S (pcalls (p_log p)).
Proof.
  rewrite lua_main_spec.
  destruct (lua_main_outcome_log (split_query pi url).1
              (default LNil (globals (p_lua p) !! UH_LUA_CB))
              [LTable (length (tables (p_lua p)))]
              (stack (p_lua p)) (globals (p_lua p))
              (tables (p_lua p) ++ [env_table cl pi url]) (p_world p)
              (p_log p ++ [A_getglobal UH_LUA_CB; A_newtable] ++ env_calls cl pi url))
    as (pf & Hpf & Hlog).
  exists pf. split; [done|].
  rewrite Hlog, !pcalls_app, pcalls_env_calls, !pcalls_singleton.
  change (pcalls [A_getglobal UH_LUA_CB; A_newtable]) with 0%nat. cbn [is_pcall]. lia.
Qed.

(** When the handler returns, or fails with a string or a number as error
    value, [lua_main] exits with status 0. *)
Lemma lua_main_exit_0 (cl : client) (pi : path_info) (url : string) (p : process) :
  match call_value rt (default LNil (globals (p_lua p) !! UH_LUA_CB))
          [LTable (length (tables (p_lua p)))]
          (mk_lua_State (stack (p_lua p)) (globals (p_lua p))
             (tables (p_lua p) ++ [env_table cl pi url]))
          (p_world p)
  with
  | Returns _ _ _ => exists pf, lua_main cl pi url p = Exit 0 pf
  | Fails e _ _ =>
      is_Some (tostring_value (error_object e)) ->
      exists pf, lua_main cl pi url p = Exit 0 pf
  | _ => True
  end.
Proof.
  rewrite lua_main_spec. unfold lua_main_outcome.
  destruct (call_value _ _ _ _ _) as [vals L' w'|e L' w'| |]; [eauto| |done..].
  intros [s Hs]. rewrite Hs. destruct (_ || _); eauto.
Qed.

(** When [lua_plugin_init] returns, it returns 0 and has added one handler,
    [lua_dispatch], made of [check_lua_url] and [lua_handle_request];
    otherwise the process has ended or hangs in the script. *)
Lemma lua_plugin_init_registers (handlers : list dispatch_handler) (p : process) :
  match lua_plugin_init handlers p with
  | Ok (ret, handlers') _ =>
      ret = 0 /\ handlers' = (handlers ++ [lua_dispatch])%list /\
      check_url lua_dispatch = check_lua_url /\
      handle_request lua_dispatch = lua_handle_request
  | Exit _ _ | Diverge _ => True
  | Raise _ _ | Undefined => False
  end.
Proof.
  rewrite lua_plugin_init_spec. unfold uh_lua_state_init_outcome.
  destruct (rt_loadfile _ _ _); [done|].
  destruct (rt_call _ _ _ _ _); try done.
  destruct (is_function _); done.
Qed.

(** C4: [check_lua_url] answers what the host's [path_match] answers for
    the configured prefix and the URL, and so does the [check_url] of the
    handler the plugin registers. *)
Theorem check_lua_url_path_match (url : string) :
  check_lua_url url = path_match ops (lua_prefix conf) url /\
  check_url lua_dispatch url = path_match ops (lua_prefix conf) url.
Proof. split; reflexivity. Qed.

(** C6: when [create_process] returns false, [lua_handle_request] reports
    a 500 "Internal Server Error" through [client_error], and calls
    nothing else after [create_process]. *)
Theorem lua_handle_request_no_child (cl : client) (url : string) (pi : path_info) :
  create_process ops cl request_path_info url = false ->
  lua_handle_request cl url pi =
    [ H_create_process cl request_path_info url lua_main;
      H_client_error cl 500 "Internal Server Error"
        ("Failed to create CGI process: " +:+
         strerror (errno_after_create cl request_path_info url)) ].
Proof.
  intros H. unfold lua_handle_request. cbn [_pi pi_name pi_phys pi_query].
  fold request_path_info. by rewrite H.
Qed.

(** C7: the table bound to the global [uhttpd] has [send] and [sendc]
    bound to one function, the global [print]; [recv] bound to
    [uh_lua_recv], which reads the request body from standard input
    (descriptor 0): called with a length of at least 1 it makes the reads
    of descriptor 0 up to the first that stops the reading and returns
    their bytes, and it never takes a read of another descriptor;
    [urldecode], [urlencode] and the configured [docroot] string. *)
Theorem uhttpd_api_table (p : process) :
  exists p' r t,
    (lua_open ;; luaL_openlibs ;; uh_lua_api_table) p = Ok tt p' /\
    globals (p_lua p') !! "uhttpd" = Some (LTable r) /\
    tables (p_lua p') !! r = Some t /\
    globals (p_lua p') !! "print" = Some (tbl_get (LString "send") t) /\
    tbl_get (LString "sendc") t = tbl_get (LString "send") t /\
    tbl_get (LString "send") t = LCFunction Fn_luaB_print /\
    tbl_get (LString "recv") t = LCFunction Fn_uh_lua_recv /\
    cfunction_code Fn_uh_lua_recv = Some uh_lua_recv /\
    reads_stdin uh_lua_recv /\
    reads_only_stdin uh_lua_recv /\
    STDIN_FILENO = 0 /\
    tbl_get (LString "urldecode") t = LCFunction Fn_uh_lua_urldecode /\
    cfunction_code Fn_uh_lua_urldecode = Some uh_lua_urldecode /\
    tbl_get (LString "urlencode") t = LCFunction Fn_uh_lua_urlencode /\
    cfunction_code Fn_uh_lua_urlencode = Some uh_lua_urlencode /\
    tbl_get (LString "docroot") t = LString (docroot conf).
Proof.
  eexists _, 0%nat, api_table. split; [apply uh_lua_api_table_spec|].
  repeat split; try reflexivity.
  - apply uh_lua_recv_reads_stdin.
  - apply uh_lua_recv_reads_only_stdin.
Qed.

(** C8, as the code has it: a length of at least 1 that is an [int] does
    not limit the reading.  The loop does the same for every positive
    length; [uhttpd.recv] reads until the end of file, a read error that is
    not retried, or a read of fewer than LUAL_BUFFERSIZE bytes, and returns
    the bytes of all these reads; a call with length 1 can return 2 bytes.
    A length above 0 and below 1 converts to the [int] 0: nothing is read.
    A read delivers no more than LUAL_BUFFERSIZE bytes, and the bytes to
    come are no more than an int counts. *)
Theorem recv_length_no_limit :
  (forall len len' rs B data_len errno,
     0 < len -> 0 < len' ->
     recv_loop len rs B data_len errno = recv_loop len' rs B data_len errno) /\
  (forall (p : process) (d : lua_Number) (rs : list read_outcome),
     pending (p_world p) STDIN_FILENO = rs ->
     value_at (p_lua p) 1 = Some (LNumber d) ->
     (1 <= d)%Q -> (d < 2147483648)%Q ->
     Forall chunk_fits rs ->
     strlen (bytes_of rs) <= INT_MAX ->
     exists n p',
       uh_lua_recv p = Ok n p' /\
       results n p' = recv_results (reads_made rs) /\
       pending (p_world p') STDIN_FILENO = drop (length (reads_made rs)) rs) /\
  (forall (p : process) (d : lua_Number),
     value_at (p_lua p) 1 = Some (LNumber d) ->
     (0 < d)%Q -> (d < 1)%Q ->
     exists p',
       uh_lua_recv p = Ok 1 p' /\
       results 1 p' = [LNumber (inject_Z 0)] /\
       pending (p_world p') STDIN_FILENO = pending (p_world p) STDIN_FILENO) /\
  (2 <= LUAL_BUFFERSIZE ->
   exists p p',
     value_at (p_lua p) 1 = Some (LNumber (inject_Z 1)) /\
     Forall chunk_fits (pending (p_world p) STDIN_FILENO) /\
     uh_lua_recv p = Ok 2 p' /\
     results 2 p' = [LNumber (inject_Z 2); LString "ab"]).
Proof.
  split; [|split; [|split]].
  - intros. by apply recv_loop_any_length.
  - intros p d rs <- Harg H1 H2 Hfit Hmax.
    exact (uh_lua_recv_positive p d Harg H1 H2 Hfit Hmax).
  - intros p d Harg H0 H1.
    destruct (uh_lua_recv_no_read p d Harg) as (p' & Hrun & Hres & Hpend).
    { apply int_of_number_below_one; [|done].
      eapply Qlt_trans; [|exact H0]. reflexivity. }
    eauto.
  - intros Hsize.
    set (p := mk_process (mk_lua_State [LNumber (inject_Z 1)] ∅ [])
                (mk_world {[ STDIN_FILENO := [ReadBytes "ab"] ]} "" "" 0) []).
    assert (Hpend : pending (p_world p) STDIN_FILENO = [ReadBytes "ab"]).
    { unfold pending. cbn [p_world w_pending p]. by rewrite lookup_singleton_eq. }
    assert (Hfit : Forall chunk_fits (pending (p_world p) STDIN_FILENO)).
    { rewrite Hpend. repeat constructor. unfold chunk_fits, strlen. cbn. lia. }
    destruct (uh_lua_recv_spec p (inject_Z 1)) as (p' & Hrun & Hres & _);
      [done|done|by rewrite Hpend|].
    assert (Hmade : reads_of_call (int_of_number (inject_Z 1)) (pending (p_world p) STDIN_FILENO)
                    = [ReadBytes "ab"]).
    { rewrite Hpend. unfold reads_of_call.
      change (0 <? int_of_number (inject_Z 1)) with true.
      cbn [reads_made stops_reading]. by destruct (_ || _). }
    rewrite Hmade in Hrun, Hres.
    exists p, p'. split; [done|]. split; [done|]. split; [exact Hrun|exact Hres].
Qed.

(** C9, as the code has it: called with a number, [uhttpd.recv] returns
    two values, the byte count followed by the data, exactly when at least
    one byte was read; otherwise it returns one number, -1 when a read
    error that is not retried came up, and else 0 (end of file, or a length
    that converts to no positive [int]).  The loop retries a read that
    failed with EINTR, and one that failed with EAGAIN or EWOULDBLOCK when
    the [poll] after it reports input or leaves EINTR in [errno].  A
    length of at least 1 that is an [int] makes the reads up to the first
    that stops the reading; a length below 1 within the range of [int]
    makes none.  A read delivers no more than LUAL_BUFFERSIZE bytes, and
    the bytes to come are no more than an int counts. *)
Theorem recv_count_then_data (p : process) (d : lua_Number)
  (rs made : list read_outcome) :
  pending (p_world p) STDIN_FILENO = rs ->
  reads_of_call (int_of_number d) rs = made ->
  value_at (p_lua p) 1 = Some (LNumber d) ->
  Forall chunk_fits rs ->
  strlen (bytes_of rs) <= INT_MAX ->
  (exists n p',
     uh_lua_recv p = Ok n p' /\
     results n p' =
       (if 0 <? strlen (bytes_of made)
        then [LNumber (inject_Z (strlen (bytes_of made))); LString (bytes_of made)]
        else [LNumber (inject_Z (if fatal_error made then -1 else 0))]) /\
     n = (if 0 <? strlen (bytes_of made) then 2 else 1) /\
     pending (p_world p') STDIN_FILENO = drop (length made) rs) /\
  ((1 <= d)%Q -> (d < 2147483648)%Q -> made = reads_made rs) /\
  ((-2147483649 < d)%Q -> (d < 1)%Q -> made = []) /\
  (forall e pl,
     retry e pl = true <->
       e = EINTR \/
       (e = EAGAIN \/ e = EWOULDBLOCK) /\
       (Z.land (revents pl) POLLIN <> 0 \/ errno_after_poll e pl = EINTR)).
Proof.
  intros <- <- Harg Hfit Hmax. split; [|split; [|split]].
  - destruct (uh_lua_recv_spec p d Harg Hfit Hmax) as (p' & Hrun & Hres & Hpend & _).
    eexists _, p'. split; [exact Hrun|]. split; [exact Hres|]. split; [|exact Hpend].
    unfold recv_results. by destruct (0 <? strlen (bytes_of _)).
  - intros H1 H2. pose proof (int_of_number_positive d H1 H2).
    unfold reads_of_call. by destruct (Z.ltb_spec 0 (int_of_number d)); [|lia].
  - intros H1 H2. pose proof (int_of_number_below_one d H1 H2).
    unfold reads_of_call. by destruct (Z.ltb_spec 0 (int_of_number d)); [lia|].
  - intros e pl. apply retry_spec.
Qed.

(** * Further properties of the code *)

(** ** uh_lua_strconvert *)

Lemma value_at_lookup (L : lua_State) (idx : Z) (v : lua_value) :
  value_at L idx = Some v ->
  exists i, stack_pos (length (stack L)) idx = Some i /\ stack L !! i = Some v.
Proof.
  unfold value_at. destruct (stack_pos _ _) as [i|]; [|done]. eauto.
Qed.

Lemma lua_tostring_at (idx : Z) (i : nat) (v : lua_value) (p : process) :
  stack_pos (length (stack (p_lua p))) idx = Some i ->
  stack (p_lua p) !! i = Some v ->
  lua_tostring rt idx p =
    Ok (tostring_value v)
       (mk_process
          (mk_lua_State (<[i := tostring_convert v]> (stack (p_lua p)))
             (globals (p_lua p)) (tables (p_lua p)))
          (p_world p) (p_log p)).
Proof.
  intros Hpos Hv. destruct p as [[st g t] w l]. cbn in *.
  unfold lua_tostring. run. rewrite Hpos, Hv.
  destruct v; cbn; try reflexivity; by rewrite list_insert_id.
Qed.

(** X1: a URL conversion that succeeds.  Called on a string (or on a
    number, which Lua turns into its string), [uh_lua_strconvert] hands that
    string and the size 4096 of its buffer to the conversion and returns
    one result: the first [out_len] bytes of the buffer.  It reads and
    writes nothing. *)
Theorem uh_lua_strconvert_result (convert : Z -> string -> Z * string) (p : process)
  (v : lua_value) (s out_buf : string) (out_len : Z) :
  value_at (p_lua p) 1 = Some v ->
  tostring_value v = Some s ->
  convert 4096 s = (out_len, out_buf) ->
  0 <= out_len ->
  exists p',
    uh_lua_strconvert convert p = Ok 1 p' /\
    results 1 p' = [LString (substring 0 (Z.to_nat out_len) out_buf)] /\
    length (stack (p_lua p')) = S (length (stack (p_lua p))) /\
    p_world p' = p_world p.
Proof.
  intros Harg Hs Hconv Hlen.
  destruct (value_at_lookup _ _ _ Harg) as (i & Hpos & Hv).
  unfold uh_lua_strconvert, luaL_checkstring.
  rewrite <- bind_assoc.
  rewrite (bind_ok _ _ _ _ _ (lua_tostring_at 1 i v p Hpos Hv)).
  rewrite Hs. unfold mbind at 1, M_bind at 1. unfold mret at 1, M_ret at 1.
  cbn beta iota.
  rewrite Hconv. destruct (Z.ltb_spec out_len 0); [lia|].
  run. eexists. split; [reflexivity|]. cbn.
  split; [done|]. split; [|done]. by rewrite length_insert.
Qed.

(** X2: a URL conversion that fails.  When the conversion returns a
    negative length, [uh_lua_strconvert] throws a Lua error and pushes
    nothing: "buffer overflow on URL conversion" for -1, "malformed string
    on URL conversion" for every other negative value. *)
Theorem uh_lua_strconvert_error (convert : Z -> string -> Z * string) (p : process)
  (v : lua_value) (s out_buf : string) (out_len : Z) :
  value_at (p_lua p) 1 = Some v ->
  tostring_value v = Some s ->
  convert 4096 s = (out_len, out_buf) ->
  out_len < 0 ->
  exists p',
    uh_lua_strconvert convert p = Raise (ErrRun (LString (conversion_error out_len))) p' /\
    length (stack (p_lua p')) = length (stack (p_lua p)) /\
    p_world p' = p_world p /\
    (out_len = -1 ->
     conversion_error out_len = "buffer overflow on URL conversion" +:+ LF) /\
    (out_len <> -1 ->
     conversion_error out_len = "malformed string on URL conversion" +:+ LF).
Proof.
  intros Harg Hs Hconv Hlen.
  destruct (value_at_lookup _ _ _ Harg) as (i & Hpos & Hv).
  unfold uh_lua_strconvert, luaL_checkstring.
  rewrite <- bind_assoc.
  rewrite (bind_ok _ _ _ _ _ (lua_tostring_at 1 i v p Hpos Hv)).
  rewrite Hs. unfold mbind at 1, M_bind at 1. unfold mret at 1, M_ret at 1.
  cbn beta iota.
  rewrite Hconv. destruct (Z.ltb_spec out_len 0); [|lia].
  eexists. split; [reflexivity|]. cbn.
  split; [by rewrite length_insert|]. split; [done|].
  unfold conversion_error. split.
  - intros ->. reflexivity.
  - intros Hne. destruct (Z.eqb_spec out_len (-1)); [done|reflexivity].
Qed.

(** X3: a URL conversion of something that is no string.  When the
    argument is neither a string nor a number, [uh_lua_strconvert] throws
    the "bad argument" error of [luaL_checklstring]; the process is left as
    it was and the result does not depend on the conversion. *)
Theorem uh_lua_strconvert_bad_argument (convert : Z -> string -> Z * string) (p : process)
  (v : lua_value) :
  value_at (p_lua p) 1 = Some v ->
  tostring_value v = None ->
  uh_lua_strconvert convert p =
    Raise (ErrRun (LString (bad_argument 1 "string" v))) p.
Proof.
  intros Harg Hs.
  destruct (value_at_lookup _ _ _ Harg) as (i & Hpos & Hv).
  unfold uh_lua_strconvert, luaL_checkstring.
  rewrite <- bind_assoc.
  rewrite (bind_ok _ _ _ _ _ (lua_tostring_at 1 i v p Hpos Hv)).
  rewrite Hs.
  assert (Hsame : mk_process
            (mk_lua_State (<[i := tostring_convert v]> (stack (p_lua p)))
               (globals (p_lua p)) (tables (p_lua p))) (p_world p) (p_log p) = p).
  { destruct p as [[st g t] w l]. cbn in *.
    assert (tostring_convert v = v) as -> by (destruct v; try discriminate; done).
    by rewrite list_insert_id. }
  rewrite Hsame. run. by rewrite Harg.
Qed.

(** ** uh_lua_recv *)

(** The end of [uh_lua_recv], with the whole process it leaves. *)
Lemma uh_lua_recv_results_state (B : string) (data_len : Z) st g t w l :
  exists l',
    (luaL_pushresult B ;;
     lua_pushnumber (inject_Z data_len) ;;
     if 0 <? data_len
     then lua_pushvalue (-2) ;; lua_remove (-3) ;; mret 2
     else lua_remove (-2) ;; mret 1)
      (mk_process (mk_lua_State st g t) w l)
    = Ok (if 0 <? data_len then 2 else 1)
         (mk_process
            (mk_lua_State
               ((if 0 <? data_len
                 then [LString B; LNumber (inject_Z data_len)]
                 else [LNumber (inject_Z data_len)]) ++ st) g t)
            w l').
Proof.
  destruct (0 <? data_len).
  - run. rewrite value_at_second. cbn.
    change (-3) with (- Z.of_nat 3). rewrite lua_remove_at by (cbn; lia). cbn.
    eexists. reflexivity.
  - run.
    change (-2) with (- Z.of_nat 2). rewrite lua_remove_at by (cbn; lia). cbn.
    eexists. reflexivity.
Qed.

(** X4: a length that is not positive.  Called with a number whose int
    value is zero or negative, [uhttpd.recv] makes no read at all: it
    returns the single number 0 and leaves every descriptor's pending
    input, and the output, as they were. *)
Theorem uh_lua_recv_no_length (p : process) (d : lua_Number) :
  value_at (p_lua p) 1 = Some (LNumber d) ->
  int_of_number d <= 0 ->
  exists p',
    uh_lua_recv p = Ok 1 p' /\
    results 1 p' = [LNumber (inject_Z 0)] /\
    (forall fd, pending (p_world p') fd = pending (p_world p) fd) /\
    w_stdout (p_world p') = w_stdout (p_world p) /\
    w_errno (p_world p') = w_errno (p_world p).
Proof.
  intros Harg Hlen. unfold uh_lua_recv.
  rewrite (bind_ok _ _ _ _ _ (luaL_checknumber_number 1 d p Harg)).
  unfold get_world at 1. unfold mbind at 1, M_bind at 1.
  rewrite recv_loop_no_length by done.
  unfold put_world at 1. unfold mbind at 1, M_bind at 1.
  destruct (uh_lua_recv_results "" 0
              (mk_process (p_lua p)
                 (set_errno (w_errno (p_world p))
                    (set_pending STDIN_FILENO (pending (p_world p) STDIN_FILENO) (p_world p)))
                 (p_log p))) as (p' & Hrun & Hw & Hres).
  cbn [Z.ltb Z.compare] in Hrun, Hres.
  exists p'. split; [exact Hrun|]. split; [exact Hres|]. rewrite Hw. cbn [p_world].
  split; [|done]. intros fd. apply pending_set_pending_same.
Qed.

Lemma luaL_checknumber_bad (narg : Z) (v : lua_value) (p : process) :
  value_at (p_lua p) narg = Some v ->
  reads_as_number v = false ->
  luaL_checknumber rt narg p = Raise (ErrRun (LString (bad_argument narg "number" v))) p.
Proof.
  intros Harg Hv. unfold luaL_checknumber. run. rewrite Harg.
  destruct v; try discriminate Hv; try reflexivity.
  cbn in Hv. destruct (rt_str2number rt s) eqn:E; [|reflexivity].
  rewrite bool_decide_eq_false in Hv. destruct Hv. eauto.
Qed.

(** X5: an argument that is no number.  When the argument of
    [uhttpd.recv] is neither a number nor a string that reads as one, the
    call throws the "bad argument" error of [luaL_checknumber] before any
    read: the process is left as it was. *)
Theorem uh_lua_recv_bad_argument (p : process) (v : lua_value) :
  value_at (p_lua p) 1 = Some v ->
  reads_as_number v = false ->
  uh_lua_recv p = Raise (ErrRun (LString (bad_argument 1 "number" v))) p.
Proof.
  intros Harg Hv. unfold uh_lua_recv.
  unfold mbind at 1, M_bind at 1. by rewrite (luaL_checknumber_bad 1 v p Harg Hv).
Qed.

(** The [errno] the loop starts with plays no part in what it collects. *)
Lemma recv_loop_errno_irrelevant len rs : forall B data_len errno errno',
  exists r1 r2,
    recv_loop len rs B data_len errno = (r1.1.1, r1.1.2, r1.2, r2.1) /\
    recv_loop len rs B data_len errno' = (r1.1.1, r1.1.2, r1.2, r2.2).
Proof.
  induction rs as [|o rs IH]; intros B dl e e'.
  - cbn. destruct (0 <? len); by exists (B, dl, []), (e, e').
  - cbn [recv_loop]. destruct (0 <? len); [|by exists (B, dl, o :: rs), (e, e')].
    destruct o as [s|e0 pl].
    + destruct (strlen s =? 0); [by exists (B, dl, rs), (e, e')|].
      destruct (negb (strlen s =? LUAL_BUFFERSIZE)); [|apply IH].
      by exists (B +:+ s, to_int (dl + strlen s), rs), (e, e').
    + destruct ((e0 =? EWOULDBLOCK) || (e0 =? EAGAIN)).
      * destruct (negb (Z.land (revents pl) POLLIN =? 0)); [apply IH|].
        destruct (errno_after_poll e0 pl =? EINTR); [apply IH|].
        by exists (B, (if dl =? 0 then -1 else dl), rs),
                  (errno_after_poll e0 pl, errno_after_poll e0 pl).
      * destruct (e0 =? EINTR); [apply IH|].
        by exists (B, (if dl =? 0 then -1 else dl), rs), (e0, e0).
Qed.

(** X6: retried read errors leave no trace in the result.  The loop
    collects the same bytes and the same count from a sequence of reads
    and from that sequence without the failures it retries (EINTR, and
    EAGAIN or EWOULDBLOCK followed by a [poll] that reports input or is
    interrupted itself); the reads left over correspond. *)
Theorem recv_loop_retried_transparent (len : Z) (rs : list read_outcome) :
  forall (B : string) (data_len errno : Z),
  exists B' data_len' rest errno1 errno2,
    recv_loop len rs B data_len errno = (B', data_len', rest, errno1) /\
    recv_loop len (drop_retried rs) B data_len errno =
      (B', data_len', drop_retried rest, errno2).
Proof.
  induction rs as [|o rs IH]; intros B dl e.
  - cbn. destruct (0 <? len); eauto 10.
  - destruct (Z.ltb_spec 0 len) as [Hpos|Hneg].
    2:{ rewrite !recv_loop_no_length by lia. eauto 10. }
    destruct o as [s|e' pl].
    + cbn [drop_retried recv_loop]. destruct (0 <? len) eqn:El; [|apply Z.ltb_ge in El; lia].
      destruct (strlen s =? 0); [eauto 10|].
      destruct (negb (strlen s =? LUAL_BUFFERSIZE)); [eauto 10|].
      apply IH.
    + destruct (recv_loop_fail len e' pl rs B dl) as (e1 & He1).
      cbn [drop_retried]. destruct (retry e' pl) eqn:Er.
      * rewrite He1. destruct (0 <? len) eqn:El; [|apply Z.ltb_ge in El; lia].
        destruct (IH B dl e1) as (B' & dl' & rest & e2 & e3 & H1 & H2).
        destruct (IH B dl e) as (B'' & dl'' & rest'' & e2' & e3' & H1' & H2').
        exists B', dl', rest, e2, e3'. split; [done|].
        destruct (recv_loop_errno_irrelevant len rs B dl e1 e) as (x1 & x2 & Hx1 & Hx2).
        rewrite H1 in Hx1. rewrite H1' in Hx2. simplify_eq. exact H2'.
      * clear He1. cbn [recv_loop]. unfold retry in Er.
        destruct (0 <? len) eqn:El; [|apply Z.ltb_ge in El; lia].
        destruct ((e' =? EWOULDBLOCK) || (e' =? EAGAIN)).
        -- destruct (negb (Z.land (revents pl) POLLIN =? 0)); [discriminate Er|].
           cbn [orb] in Er. rewrite Er. eauto 10.
        -- rewrite Er. eauto 10.
Qed.

Lemma bytes_of_app (a b : list read_outcome) :
  bytes_of (a ++ b) = bytes_of a +:+ bytes_of b.
Proof.
  induction a as [|o a IH]; [done|]. destruct o; cbn [app bytes_of].
  - by rewrite IH, append_assoc.
  - exact IH.
Qed.

(** The loop with its count, whatever the sizes of the reads: the count is
    positive exactly when bytes were collected. *)
Lemma recv_loop_count len rs : forall B data_len errno,
  0 <= data_len -> data_len + strlen (bytes_of rs) <= INT_MAX ->
  exists used data_len' errno',
    recv_loop len rs B data_len errno =
      (B +:+ bytes_of used, data_len', drop (length used) rs, errno') /\
    rs = (used ++ drop (length used) rs)%list /\
    (0 <? data_len') = (0 <? data_len + strlen (bytes_of used)).
Proof.
  induction rs as [|o rs IH]; intros B dl e Hdl Hmax.
  - cbn [recv_loop]. exists []. cbn. rewrite append_nil_r, Z.add_0_r.
    destruct (0 <? len); eauto 10.
  - destruct o as [s|e' pl].
    2:{ cbn [bytes_of] in Hmax.
        destruct (recv_loop_fail len e' pl rs B dl) as (e1 & He1). rewrite He1.
        destruct (0 <? len);
          [|exists []; cbn; rewrite append_nil_r, Z.add_0_r; eauto 10].
        destruct (retry e' pl).
        - destruct (IH B dl e1) as (used & dl' & e'' & -> & Hrs & Hcount); [lia|lia|].
          exists (ReadFail e' pl :: used). cbn [bytes_of length drop app].
          eexists _, _. split; [done|]. split; [by f_equal|done].
        - exists [ReadFail e' pl]. cbn. rewrite append_nil_r, Z.add_0_r.
          eexists _, _. split; [done|]. split; [done|].
          destruct (Z.eqb_spec dl 0) as [->|]; reflexivity. }
    cbn [recv_loop].
    destruct (0 <? len);
      [|exists []; cbn; rewrite append_nil_r, Z.add_0_r; eauto 10].
    + cbn [bytes_of] in Hmax. rewrite strlen_append in Hmax.
      pose proof (strlen_nonneg s). pose proof (strlen_nonneg (bytes_of rs)).
      destruct (strlen s =? 0) eqn:E0.
      * exists [ReadBytes s]. cbn. apply Z.eqb_eq, strlen_0 in E0. subst s.
        rewrite append_nil_r. cbn. rewrite Z.add_0_r. eauto 10.
      * rewrite to_int_small by lia.
        destruct (negb (strlen s =? LUAL_BUFFERSIZE)).
        -- exists [ReadBytes s]. cbn. rewrite append_nil_r. eauto 10.
        -- destruct (IH (B +:+ s) (dl + strlen s) e)
             as (used & dl' & e'' & -> & Hrs & Hcount); [lia|lia|].
           exists (ReadBytes s :: used). cbn [bytes_of length drop app].
           rewrite append_assoc, strlen_append, Z.add_assoc.
           eexists _, _. split; [done|]. split; [by f_equal|done].
Qed.

(** X7: no byte is lost and none is read twice.  After a call of
    [uhttpd.recv] with a number, the bytes that were pending on standard
    input are the data the call returned followed by the bytes still
    pending; data comes back as the second of two results, and a call that
    returns one result took no byte.  The pending bytes are no more than an
    int counts. *)
Theorem uh_lua_recv_no_byte_lost (p : process) (d : lua_Number) (rs : list read_outcome) :
  pending (p_world p) STDIN_FILENO = rs ->
  value_at (p_lua p) 1 = Some (LNumber d) ->
  strlen (bytes_of rs) <= INT_MAX ->
  exists n p' data,
    uh_lua_recv p = Ok n p' /\
    bytes_of rs = data +:+ bytes_of (pending (p_world p') STDIN_FILENO) /\
    (if 0 <? strlen data
     then exists count, results n p' = [LNumber count; LString data]
     else n = 1).
Proof.
  intros <- Harg Hmax. unfold uh_lua_recv.
  rewrite (bind_ok _ _ _ _ _ (luaL_checknumber_number 1 d p Harg)).
  unfold get_world at 1. unfold mbind at 1, M_bind at 1.
  destruct (recv_loop_count (int_of_number d) (pending (p_world p) STDIN_FILENO) "" 0
              (w_errno (p_world p))) as (used & dl & e' & -> & Hrs & Hcount); [lia|lia|].
  change ("" +:+ bytes_of used) with (bytes_of used).
  rewrite Z.add_0_l in Hcount.
  set (w' := set_errno e' (set_pending STDIN_FILENO _ (p_world p))).
  destruct (uh_lua_recv_results (bytes_of used) dl (mk_process (p_lua p) w' (p_log p)))
    as (p' & Hrun & Hw & Hres).
  unfold put_world at 1. unfold mbind at 1, M_bind at 1.
  rewrite Hrun. eexists _, p', (bytes_of used). split; [reflexivity|].
  rewrite Hw. cbn [p_world]. unfold w'. rewrite pending_set_pending_eq.
  split; [by rewrite <- bytes_of_app, <- Hrs|].
  rewrite <- Hcount. destruct (0 <? dl); [|done]. rewrite Hres. eauto.
Qed.

(** X8: what a call of [uhttpd.recv] leaves alone.  A call that returns
    leaves its one or two results on top of the caller's stack and the
    stack below, the globals, the tables and both output streams as they
    were; a call that throws leaves the whole process as it was; a call
    never ends the process with [exit] and never misuses the Lua stack.
    Whether a call comes back at all rests on its reads and is no part of
    this statement. *)
Theorem uh_lua_recv_frame (p : process) :
  match uh_lua_recv p with
  | Ok n p' =>
      (n = 1 \/ n = 2) /\
      drop (Z.to_nat n) (stack (p_lua p')) = stack (p_lua p) /\
      globals (p_lua p') = globals (p_lua p) /\
      tables (p_lua p') = tables (p_lua p) /\
      w_stdout (p_world p') = w_stdout (p_world p) /\
      w_stderr (p_world p') = w_stderr (p_world p)
  | Raise _ p' => p' = p
  | Exit _ _ => False
  | Undefined => False
  | Diverge _ => True
  end.
Proof.
  unfold uh_lua_recv.
  destruct (luaL_checknumber_outcome 1 p) as [[d Hd]|[e He]].
  - rewrite (bind_ok _ _ _ _ _ Hd).
    unfold get_world at 1. unfold mbind at 1, M_bind at 1.
    destruct (recv_loop (int_of_number d) (pending (p_world p) STDIN_FILENO) "" 0
                (w_errno (p_world p))) as [[[B dl] rest] e'].
    unfold put_world at 1. unfold mbind at 1, M_bind at 1.
    destruct p as [[st g t] w l]. cbn [p_lua p_world p_log].
    destruct (uh_lua_recv_results_state B dl st g t
                (set_errno e' (set_pending STDIN_FILENO rest w)) l) as (l' & ->).
    cbn [p_lua p_world stack globals tables].
    destruct (0 <? dl); cbn; auto 10.
  - unfold mbind at 1, M_bind at 1. by rewrite He.
Qed.

(** ** uh_lua_state_init *)

Lemma pcalls_api_calls : pcalls api_calls = 0%nat.
Proof. reflexivity. Qed.

(** X9: when start-up succeeds.  [uh_lua_state_init] returns exactly when
    the handler file loads, the script runs to its end and leaves a
    function in the global [handle_request]; it then leaves that function
    alone on the stack, the Lua state and the world being those the script
    left (the plugin itself prints nothing). *)
Theorem uh_lua_state_init_returns (p : process) :
  (forall p', uh_lua_state_init p = Ok tt p' ->
     exists id vals L' w',
       rt_loadfile rt (lua_handler conf) (p_world p) = inr id /\
       script_run id (p_world p) = Returns vals L' w' /\
       is_function (default LNil (globals L' !! UH_LUA_CB)) = true /\
       stack (p_lua p') = [default LNil (globals L' !! UH_LUA_CB)] /\
       globals (p_lua p') = globals L' /\
       tables (p_lua p') = tables L' /\
       p_world p' = w') /\
  (forall id vals L' w',
     rt_loadfile rt (lua_handler conf) (p_world p) = inr id ->
     script_run id (p_world p) = Returns vals L' w' ->
     is_function (default LNil (globals L' !! UH_LUA_CB)) = true ->
     exists p', uh_lua_state_init p = Ok tt p').
Proof.
  rewrite uh_lua_state_init_spec. unfold uh_lua_state_init_outcome, script_run.
  split.
  - intros p'. destruct (rt_loadfile _ _ _) as [e|id] eqn:Hload; [done|].
    destruct (rt_call _ _ _ _ _) as [vals L' w'| | |] eqn:Hcall; try done.
    destruct (is_function _) eqn:Hf; [|done].
    intros [= <-]. exists id, vals, L', w'. repeat split; try reflexivity; assumption.
  - intros id vals L' w' -> -> ->. eauto.
Qed.

(** X10: the handler file does not load.  [uh_lua_state_init] writes
    "Error loading Lua handler: " and the loader's message to standard
    error and ends the process with status 1; the script is never run and
    nothing goes to standard output. *)
Theorem uh_lua_state_init_load_failure (p : process) (e : load_error) :
  rt_loadfile rt (lua_handler conf) (p_world p) = inl e ->
  exists p' msg,
    uh_lua_state_init p = Exit 1 p' /\
    load_message e = LString msg /\
    w_stderr (p_world p') =
      w_stderr (p_world p) +:+ ("Error loading Lua handler: " +:+ msg +:+ LF) /\
    w_stdout (p_world p') = w_stdout (p_world p) /\
    pcalls (p_log p') = pcalls (p_log p).
Proof.
  intros He. rewrite uh_lua_state_init_spec. unfold uh_lua_state_init_outcome.
  rewrite He.
  assert (Hmsg : exists msg, load_message e = LString msg) by (destruct e; cbn; eauto).
  destruct Hmsg as (msg & Hmsg).
  eexists _, msg. split; [reflexivity|]. split; [exact Hmsg|].
  cbn [after_call p_world p_log write_stderr w_stderr w_stdout].
  unfold init_error_message. rewrite Hmsg. cbn [is_nil tostring_value show_str default].
  split; [reflexivity|]. split; [reflexivity|].
  rewrite !pcalls_app, pcalls_api_calls, pcalls_singleton. cbn [is_pcall]. lia.
Qed.


(** X12: the script defines no handler.  When the script runs to its end
    but the global [handle_request] is not a function, [uh_lua_state_init]
    writes "Error: Lua handler provides no handle_request() callback." to
    standard error and ends the process with status 1. *)
Theorem uh_lua_state_init_no_callback (p : process) (id : nat) (vals : list lua_value)
  (L' : lua_State) (w' : world) :
  rt_loadfile rt (lua_handler conf) (p_world p) = inr id ->
  script_run id (p_world p) = Returns vals L' w' ->
  is_function (default LNil (globals L' !! UH_LUA_CB)) = false ->
  exists p',
    uh_lua_state_init p = Exit 1 p' /\
    w_stderr (p_world p') =
      w_stderr w' +:+ ("Error: Lua handler provides no handle_request() callback." +:+ LF) /\
    w_stdout (p_world p') = w_stdout w'.
Proof.
  intros Hload Hrun Hf. rewrite uh_lua_state_init_spec. unfold uh_lua_state_init_outcome.
  unfold script_run in Hrun. rewrite Hload, Hrun, Hf.
  eexists. split; [reflexivity|]. split; reflexivity.
Qed.

(** ** lua_main *)

Lemma lua_main_handler_call (cl : client) (pi : path_info) (url : string) (p : process) :
  lua_main cl pi url p =
    match handler_call cl pi url p with
    | Returns vals L' w' =>
        Exit 0 (after_call [] (stack (p_lua p)) L' w'
                  (p_log (env_process cl pi url p) ++
                   [A_pcall 1 0 0 (default LNil (globals (p_lua p) !! UH_LUA_CB))
                      [LTable (length (tables (p_lua p)))]]))
    | _ => lua_main cl pi url p
    end.
Proof.
  destruct (handler_call cl pi url p) eqn:E; try reflexivity.
  rewrite lua_main_spec. unfold lua_main_outcome. unfold handler_call in E.
  rewrite E. reflexivity.
Qed.

(** X13: the handler returns.  [lua_main] then ends the process with
    status 0 and adds nothing of its own: the world (both output streams
    included) is the one the handler left, the values the handler returned
    are dropped, and the stack is back to what it was before the request. *)
Theorem lua_main_handler_returns (cl : client) (pi : path_info) (url : string)
  (p : process) (vals : list lua_value) (L' : lua_State) (w' : world) :
  handler_call cl pi url p = Returns vals L' w' ->
  exists pf,
    lua_main cl pi url p = Exit 0 pf /\
    p_world pf = w' /\
    stack (p_lua pf) = stack (p_lua p) /\
    globals (p_lua pf) = globals L' /\
    tables (p_lua pf) = tables L'.
Proof.
  intros Hcall. rewrite lua_main_handler_call, Hcall.
  eexists. split; [reflexivity|]. done.
Qed.

(** X14: the 500 response.  When the handler fails with a runtime or a
    memory error whose error value is a string or a number, [lua_main]
    appends to the output "Status: 500 Internal Server Error", an empty
    line, and two lines that name the handler file ([pi->phys]) and
    [strerror(errno)], and ends the process with status 0.  The response
    does not contain the error message of the handler, and nothing goes to
    standard error. *)
Theorem lua_main_response_500 (cl : client) (pi : path_info) (url : string) (p : process)
  (e : lua_error) (L' : lua_State) (w' : world) (s : string) :
  handler_call cl pi url p = Fails e L' w' ->
  error_status e = LUA_ERRRUN \/ error_status e = LUA_ERRMEM ->
  tostring_value (error_object e) = Some s ->
  exists pf,
    lua_main cl pi url p = Exit 0 pf /\
    w_stdout (p_world pf) =
      w_stdout w' +:+
      ("Status: 500 Internal Server Error" +:+ CR +:+ LF +:+ CR +:+ LF +:+
       "Unable to launch the requested Lua program:" +:+ LF +:+
       "  " +:+ show_str (pi_phys pi) +:+ ": " +:+ strerror (w_errno w') +:+ LF) /\
    w_stderr (p_world pf) = w_stderr w'.
Proof.
  intros Hcall Hstatus Hs. rewrite lua_main_spec. unfold lua_main_outcome.
  unfold handler_call in Hcall. rewrite Hcall, Hs.
  assert (Hb : (error_status e =? LUA_ERRMEM) || (error_status e =? LUA_ERRRUN) = true).
  { destruct Hstatus as [-> | ->]; reflexivity. }
  rewrite Hb. eexists. split; [reflexivity|].
  cbn [after_call p_world write_stdout w_stdout w_stderr]. unfold response_500.
  assert (Hphys : pi_phys (split_query pi url).1 = pi_phys pi).
  { unfold split_query. by destruct (strchr url "?"). }
  rewrite Hphys. done.
Qed.

(** X15: an error value that is no string.  When the handler fails with a
    runtime error whose error value is neither a string nor a number (a
    table, nil, a boolean, a function), [luaL_checkstring] throws outside
    any protected call: the process ends with status EXIT_FAILURE, Lua's
    panic message goes to standard error, and the output is left as the
    handler left it, without any response of the plugin. *)
Theorem lua_main_error_value_not_string (cl : client) (pi : path_info) (url : string)
  (p : process) (obj : lua_value) (L' : lua_State) (w' : world) :
  handler_call cl pi url p = Fails (ErrRun obj) L' w' ->
  tostring_value obj = None ->
  exists pf,
    lua_main cl pi url p = Exit EXIT_FAILURE pf /\
    w_stdout (p_world pf) = w_stdout w' /\
    w_stderr (p_world pf) =
      w_stderr w' +:+
      ("PANIC: unprotected error in call to Lua API (" +:+
       bad_argument (-1) "string" obj +:+ ")" +:+ LF).
Proof.
  intros Hcall Hs. rewrite lua_main_spec. unfold lua_main_outcome.
  unfold handler_call in Hcall. rewrite Hcall. cbn [error_object error_status].
  rewrite Hs. change ((LUA_ERRRUN =? LUA_ERRMEM) || (LUA_ERRRUN =? LUA_ERRRUN)) with true.
  eexists. split; [reflexivity|]. done.
Qed.

(** X16: a failure with another status.  The switch of [lua_main] has
    cases for LUA_ERRRUN and LUA_ERRMEM only: when the protected call fails
    with any other status (LUA_ERRERR), the process ends with status 0 and
    the plugin prints no response. *)
Theorem lua_main_other_status (cl : client) (pi : path_info) (url : string)
  (p : process) (e : lua_error) (L' : lua_State) (w' : world) :
  handler_call cl pi url p = Fails e L' w' ->
  error_status e <> LUA_ERRRUN ->
  error_status e <> LUA_ERRMEM ->
  exists pf,
    lua_main cl pi url p = Exit 0 pf /\
    p_world pf = w'.
Proof.
  intros Hcall Hrun Hmem. rewrite lua_main_spec. unfold lua_main_outcome.
  unfold handler_call in Hcall. rewrite Hcall.
  destruct (Z.eqb_spec (error_status e) LUA_ERRMEM); [done|].
  destruct (Z.eqb_spec (error_status e) LUA_ERRRUN); [done|].
  eexists. split; [reflexivity|]. done.
Qed.

(** X17: no handler at request time.  When the global [handle_request] is
    not a function, the script is not entered: the protected call fails
    with Lua's "attempt to call" error, and [lua_main] answers with the 500
    response and ends the process with status 0. *)
Theorem lua_main_no_handler (cl : client) (pi : path_info) (url : string) (p : process) :
  is_function (default LNil (globals (p_lua p) !! UH_LUA_CB)) = false ->
  exists pf,
    lua_main cl pi url p = Exit 0 pf /\
    w_stdout (p_world pf) =
      w_stdout (p_world p) +:+
      ("Status: 500 Internal Server Error" +:+ CR +:+ LF +:+ CR +:+ LF +:+
       "Unable to launch the requested Lua program:" +:+ LF +:+
       "  " +:+ show_str (pi_phys pi) +:+ ": " +:+ strerror (w_errno (p_world p)) +:+ LF) /\
    globals (p_lua pf) = globals (p_lua p).
Proof.
  intros Hf. rewrite lua_main_spec. unfold lua_main_outcome, call_value.
  rewrite Hf. cbn [error_status error_object tostring_value].
  change ((LUA_ERRRUN =? LUA_ERRMEM) || (LUA_ERRRUN =? LUA_ERRRUN)) with true.
  eexists. split; [reflexivity|].
  cbn [after_call p_world p_lua globals write_stdout w_stdout w_errno]. unfold response_500.
  assert (Hphys : pi_phys (split_query pi url).1 = pi_phys pi).
  { unfold split_query. by destruct (strchr url "?"). }
  rewrite Hphys. done.
Qed.

(** X18: one call, and no return.  [lua_main] never returns to its caller
    and never leaves a Lua error to it: the process ends with some status
    or hangs in the script, and in both cases exactly one protected call
    was made. *)
Theorem lua_main_never_returns (cl : client) (pi : path_info) (url : string) (p : process) :
  match lua_main cl pi url p with
  | Exit _ pf | Diverge pf => pcalls (p_log pf) = S (pcalls (p_log p))
  | Ok _ _ | Raise _ _ | Undefined => False
  end.
Proof.
  destruct (lua_main_one_call cl pi url p) as (pf & Hpf & Hcalls).
  revert Hpf. rewrite lua_main_spec. unfold lua_main_outcome.
  destruct (call_value _ _ _ _ _) as [vals L' w'|e L' w'|code L' w'|]; cbn;
    try (intros [= <-]; exact Hcalls).
  destruct (_ || _); [destruct (tostring_value _)|]; cbn; intros [= <-]; exact Hcalls.
Qed.

(** ** The environment of a request *)

(** X19: what building the environment leaves alone.  [lua_main] puts
    the callback and one new table on the stack, above what was there; it
    changes no global and no table that existed, reads and prints nothing,
    and keeps [pi->name] and [pi->phys]. *)
Theorem lua_main_env_frame (cl : client) (pi : path_info) (url : string) (p : process) :
  exists pi' p1,
    lua_main_env cl pi url p = Ok pi' p1 /\
    drop 2 (stack (p_lua p1)) = stack (p_lua p) /\
    globals (p_lua p1) = globals (p_lua p) /\
    take (length (tables (p_lua p))) (tables (p_lua p1)) = tables (p_lua p) /\
    length (tables (p_lua p1)) = S (length (tables (p_lua p))) /\
    p_world p1 = p_world p /\
    pi_name pi' = pi_name pi /\
    pi_phys pi' = pi_phys pi.
Proof.
  eexists _, _. split; [apply lua_main_env_spec|]. cbn.
  split; [done|]. split; [done|].
  split; [by rewrite take_app_length|].
  split; [rewrite length_app; cbn; lia|]. split; [done|].
  unfold split_query. by destruct (strchr url "?").
Qed.

Lemma vars_table_last (k : string) (vars : list env_var) : forall t,
  tbl_get (LString k) (vars_table vars t) =
    match last_value k vars with
    | Some value => LString value
    | None => tbl_get (LString k) t
    end.
Proof.
  induction vars as [|var rest IH]; intros t; cbn [vars_table last_value]; [done|].
  destruct (var_value var) as [value|] eqn:Hv.
  - rewrite IH. destruct (last_value k rest); [done|].
    destruct (decide (var_name var = k)) as [<-|Hne].
    + by rewrite tbl_get_set_eq.
    + rewrite tbl_get_set_ne; [done|]. intros [= Heq]. by apply Hne.
  - rewrite IH. destruct (last_value k rest); [done|].
    by destruct (decide (var_name var = k)).
Qed.

(** X20: the process variables in the table.  For every name but
    PATH_INFO and HTTP_VERSION, the field of that name in the environment
    table is the value of the last process variable of that name that has a
    value, and is absent (nil) when there is none: a variable without a
    value is skipped, and of two variables of one name the later wins. *)
Theorem env_table_process_variable (cl : client) (pi : path_info) (url : string)
  (p : process) (k : string) :
  k <> "PATH_INFO" ->
  k <> "HTTP_VERSION" ->
  exists pi' p1 r env,
    lua_main_env cl pi url p = Ok pi' p1 /\
    value_at (p_lua p1) (-1) = Some (LTable r) /\
    tables (p_lua p1) !! r = Some env /\
    tbl_get (LString k) env =
      match last_value k (get_process_vars ops cl pi') with
      | Some value => LString value
      | None => LNil
      end.
Proof.
  intros Hpath Hversion.
  destruct (env_process_top cl pi url p) as [Htop Htab].
  eexists _, _, _, _. split; [apply lua_main_env_spec|].
  split; [exact Htop|]. split; [exact Htab|].
  unfold env_table. rewrite tbl_get_set_ne by (intros [= H]; by apply Hversion).
  rewrite vars_table_last. destruct (last_value _ _); [done|].
  unfold path_table. destruct (path_info_field pi url); [|done].
  rewrite tbl_get_set_ne; [done|]. intros [= H]. by apply Hpath.
Qed.

Lemma string_drop_append (a b : string) : string_drop (String.length a) (a +:+ b) = b.
Proof. induction a as [|c a IH]; [done|]. exact IH. Qed.

Lemma env_table_path_info (cl : client) (pi : path_info) (url : string) :
  strlen url <= INT_MAX ->
  strlen (lua_prefix conf) <= INT_MAX ->
  host_leaves "PATH_INFO" cl ->
  path_info_of_path url (env_table cl pi url).
Proof.
  intros Hu Hp Hhost. unfold path_info_of_path, env_table.
  rewrite tbl_get_set_ne by done.
  rewrite vars_table_get by apply Hhost.
  unfold path_table. rewrite path_info_field_spec by done.
  destruct (_ <? _); [|done]. by rewrite tbl_get_set_eq.
Qed.

(** X21: PATH_INFO is the rest of the path.  When the path portion of the
    URL is the configured prefix followed by [rest], and the host gives
    PATH_INFO no value, the field PATH_INFO of the environment table is
    [rest], and is absent when [rest] is empty: the prefix followed by
    PATH_INFO gives the path back.  The lengths are those an int holds. *)
Theorem path_info_is_rest_of_path (cl : client) (pi : path_info) (url rest : string)
  (p : process) :
  path_portion url = lua_prefix conf +:+ rest ->
  strlen url <= INT_MAX ->
  strlen (lua_prefix conf) <= INT_MAX ->
  host_leaves "PATH_INFO" cl ->
  handler_env cl pi url p
    (λ env, tbl_get (LString "PATH_INFO") env =
              if decide (rest = "") then LNil else LString rest)
    (λ _, True).
Proof.
  intros Hpath Hu Hp Hhost.
  destruct (env_process_top cl pi url p) as [Htop Htab].
  eexists _, _, _, _. split; [apply lua_main_env_spec|].
  split; [exact Htop|]. split; [exact Htab|]. split; [|done].
  rewrite (env_table_path_info cl pi url Hu Hp Hhost).
  rewrite Hpath, strlen_append, string_drop_append.
  pose proof (strlen_nonneg rest).
  destruct (decide (rest = "")) as [->|Hne].
  - change (strlen "") with 0. destruct (Z.ltb_spec (strlen (lua_prefix conf))
                                          (strlen (lua_prefix conf) + 0)); [lia|done].
  - destruct (Z.ltb_spec (strlen (lua_prefix conf)) (strlen (lua_prefix conf) + strlen rest));
      [done|].
    assert (strlen rest = 0) as Hz by lia. apply strlen_0 in Hz. done.
Qed.

Lemma strchr_split (s : string) (c : ascii) : forall off,
  strchr s c = Some off ->
  exists q, string_drop off s = String c q /\ s = substring 0 off s +:+ String c q.
Proof.
  induction s as [|a s IH]; intros off; cbn [strchr]; [done|].
  destruct (Ascii.eqb a c) eqn:E.
  - intros [= <-]. apply Ascii.eqb_eq in E. subst a. exists s. done.
  - destruct (strchr s c) as [n|]; [|done]. intros [= <-].
    destruct (IH n eq_refl) as (q & Hdrop & Hs).
    exists q. cbn [string_drop substring]. split; [done|].
    rewrite append_cons. by f_equal.
Qed.

(** X22: the URL is split at its first question mark.  When the URL has a
    question mark, [pi->query] is set to a string that starts with it, and
    the path portion followed by [pi->query] is the URL; when it has none,
    [pi->query] is left as it was and the path portion is the whole URL.
    The path portion holds no question mark. *)
Theorem url_split_at_query (cl : client) (pi : path_info) (url : string) (p : process) :
  exists pi' p1,
    lua_main_env cl pi url p = Ok pi' p1 /\
    strchr (path_portion url) "?" = None /\
    match strchr url "?" with
    | Some _ =>
        exists q, pi_query pi' = Some (String "?" q) /\
                  url = path_portion url +:+ String "?" q
    | None => pi_query pi' = pi_query pi /\ path_portion url = url
    end.
Proof.
  eexists _, _. split; [apply lua_main_env_spec|].
  split; [apply strchr_path_portion|].
  unfold split_query, path_portion.
  destruct (strchr url "?") as [off|] eqn:E; [|done].
  destruct (strchr_split url "?" off E) as (q & Hdrop & Hurl).
  exists q. cbn [fst pi_query]. by rewrite Hdrop.
Qed.

(** ** lua_handle_request and lua_plugin_init *)

(** X23: a request whose child process is created.  Whatever [pi] it is
    called with, [lua_handle_request] calls [create_process] once, with the
    configured prefix as name, the handler file as physical path, no query
    and [lua_main] as the code of the child; when that succeeds it calls
    nothing else, and [client_error] in particular is not called. *)
Theorem lua_handle_request_child (cl : client) (url : string) (pi : path_info) :
  create_process ops cl request_path_info url = true ->
  lua_handle_request cl url pi = [ H_create_process cl request_path_info url lua_main ] /\
  pi_name request_path_info = Some (lua_prefix conf) /\
  pi_phys request_path_info = Some (lua_handler conf) /\
  pi_query request_path_info = None.
Proof.
  intros H. unfold lua_handle_request. cbn [_pi pi_name pi_phys pi_query].
  fold request_path_info. by rewrite H.
Qed.

(** X24: registration follows start-up.  [lua_plugin_init] ends as
    [uh_lua_state_init] does.  When that returns, the plugin returns 0 and
    the host's handlers are the ones it had, in their order, followed by
    [lua_dispatch]; when that ends the process, no handler was added.  No
    Lua error escapes. *)
Theorem lua_plugin_init_after_state_init (handlers : list dispatch_handler) (p : process) :
  match lua_plugin_init handlers p with
  | Ok (ret, handlers') q =>
      uh_lua_state_init p = Ok tt q /\
      ret = 0 /\
      handlers' = (handlers ++ [lua_dispatch])%list /\
      check_url lua_dispatch = check_lua_url /\
      handle_request lua_dispatch = lua_handle_request
  | Exit code q => uh_lua_state_init p = Exit code q
  | Diverge q => uh_lua_state_init p = Diverge q
  | Raise _ _ | Undefined => False
  end.
Proof.
  rewrite lua_plugin_init_spec, uh_lua_state_init_spec.
  unfold uh_lua_state_init_outcome.
  destruct (rt_loadfile _ _ _); [done|].
  destruct (rt_call _ _ _ _ _); try done.
  destruct (is_function _); done.
Qed.

(** X25: a PATH_INFO of the host wins.  The process variables are copied
    into the table after PATH_INFO was set from the URL: when the host
    gives the variable PATH_INFO a value, the field PATH_INFO of the
    environment table is that value, whatever the URL and the prefix
    are. *)
Theorem path_info_of_host (cl : client) (pi : path_info) (url : string) (p : process)
  (value : string) :
  (forall pi', last_value "PATH_INFO" (get_process_vars ops cl pi') = Some value) ->
  handler_env cl pi url p
    (λ env, tbl_get (LString "PATH_INFO") env = LString value)
    (λ _, True).
Proof.
  intros Hhost.
  destruct (env_process_top cl pi url p) as [Htop Htab].
  eexists _, _, _, _. split; [apply lua_main_env_spec|].
  split; [exact Htop|]. split; [exact Htab|]. split; [|done].
  unfold env_table. rewrite tbl_get_set_ne by done.
  by rewrite vars_table_last, Hhost.
Qed.

End Plugin.

(** * Worked examples *)

(** ** A handler that fails with an error value that is not a string *)

(** C1: the handler script calls [error({})].  [lua_pcall] returns
    LUA_ERRRUN with a table as error value; [luaL_checkstring] throws on it
    outside any protected call, so the process ends in Lua's panic with
    exit status 1 and nothing is written to standard output: no
    "Status: 500" response. *)
Theorem handler_error_table_no_response :
  exists pi' p1 p2 pf,
    lua_main_env Sample.ops Sample.conf Sample.cl Sample.pi "/lua/status" Sample.child
      = Ok pi' p1 /\
    lua_pcall Sample.rt_error_table 1 0 0 p1 = Ok LUA_ERRRUN p2 /\
    value_at (p_lua p2) (-1) = Some (LTable 2) /\
    lua_main Sample.rt_error_table Sample.ops Sample.conf Sample.strerror Sample.cl Sample.pi "/lua/status"
      Sample.child = Exit EXIT_FAILURE pf /\
    w_stdout (p_world pf) = "" /\
    w_stderr (p_world pf) =
      "PANIC: unprotected error in call to Lua API (bad argument #-1 (string expected, got table))"
      +:+ LF.
Proof.
  eexists _, _, _, _.
  split; [vm_compute; reflexivity|].
  split; [vm_compute; reflexivity|].
  split; [vm_compute; reflexivity|].
  split; [vm_compute; reflexivity|].
  split; vm_compute; reflexivity.
Qed.

(** C3: the handler script calls [error()], the error value is nil.
    [lua_main] makes its one protected call, and the process then ends with
    exit status 1 (EXIT_FAILURE, from Lua's panic), not through [exit(0)]. *)
Theorem handler_error_nil_exit_status :
  exists pf,
    lua_main Sample.rt_error_nil Sample.ops Sample.conf Sample.strerror Sample.cl Sample.pi "/lua/status"
      Sample.child = Exit EXIT_FAILURE pf /\
    EXIT_FAILURE <> 0 /\
    pcalls (p_log pf) = 1%nat /\
    w_stdout (p_world pf) = "".
Proof.
  eexists.
  split; [vm_compute; reflexivity|].
  split; [discriminate|].
  split; vm_compute; reflexivity.
Qed.

(** The same request when the handler fails with a string: the 500 response
    comes out and the exit status is 0. *)
Example handler_error_string_response :
  exists pf rest,
    lua_main Sample.rt_error_string Sample.ops Sample.conf Sample.strerror Sample.cl Sample.pi "/lua/status"
      Sample.child = Exit 0 pf /\
    w_stdout (p_world pf) = "Status: 500 Internal Server Error" +:+ rest.
Proof.
  eexists _, _. split; vm_compute; reflexivity.
Qed.

(** The allocator fails in the handler: the error value is Lua's own
    message, and the 500 response comes out. *)
Example handler_out_of_memory_response :
  exists pf rest,
    lua_main Sample.rt_out_of_memory Sample.ops Sample.conf Sample.strerror Sample.cl Sample.pi
      "/lua/status" Sample.child = Exit 0 pf /\
    w_stdout (p_world pf) = "Status: 500 Internal Server Error" +:+ rest.
Proof.
  eexists _, _. split; vm_compute; reflexivity.
Qed.

(** ** Start-up *)

(** The handler file cannot be opened: the process ends with status 1 and
    says why. *)
Example init_no_file_exits :
  exists p',
    uh_lua_state_init Sample.rt_no_file Sample.conf Sample.fresh = Exit 1 p' /\
    w_stderr (p_world p') =
      "Error loading Lua handler: cannot open /usr/lib/uhttpd/handler.lua" +:+ LF.
Proof.
  eexists. split; vm_compute; reflexivity.
Qed.

(** The script runs but defines no [handle_request]: status 1 again. *)
Example init_no_callback_exits :
  exists p',
    uh_lua_state_init Sample.rt_returns Sample.conf Sample.fresh = Exit 1 p' /\
    w_stderr (p_world p') =
      "Error: Lua handler provides no handle_request() callback." +:+ LF.
Proof.
  eexists. split; vm_compute; reflexivity.
Qed.

(** The script defines [handle_request]: the plugin returns 0 and the host
    has one handler more. *)
Example init_registers_handler :
  exists p',
    lua_plugin_init Sample.rt_init Sample.ops Sample.conf Sample.strerror
      Sample.errno_no_memory [] Sample.fresh
    = Ok (0, [lua_dispatch Sample.rt_init Sample.ops Sample.conf Sample.strerror
                Sample.errno_no_memory]) p' /\
    stack (p_lua p') = [LClosure 1] /\
    loads (p_log p') = 1%nat.
Proof.
  rewrite lua_plugin_init_spec.
  eexists. split; [reflexivity|]. split; vm_compute; reflexivity.
Qed.

(** ** The environment table *)

(** C2, as it is stated, fails: in the table of the request for
    "/lua/status" not every entry maps a string to a string (HTTP_VERSION
    maps to a number). *)
Lemma env_table_http_version_number :
  ~ handler_env Sample.ops Sample.conf Sample.cl Sample.pi "/lua/status" Sample.child
      (Forall string_entry) (λ _, True).
Proof.
  intros (pi' & p' & r & env & Henv & Htop & Htab & Hall & _).
  rewrite lua_main_env_spec in Henv. injection Henv as <- <-.
  destruct (env_process_top Sample.ops Sample.conf Sample.cl Sample.pi "/lua/status"
              Sample.child) as [Htop' Htab'].
  assert (Hr : r = length (tables (p_lua Sample.child))) by congruence. subst r.
  assert (He : env = env_table Sample.ops Sample.conf Sample.cl Sample.pi "/lua/status")
    by congruence.
  subst env.
  unfold env_table, tbl_set in Hall. cbn [is_nil] in Hall.
  inversion Hall as [|? ? [_ Hv] _]. discriminate Hv.
Qed.

(** C10, as it is stated, fails: with a host whose process variables give
    PATH_INFO a value, the request for "/lua" (the prefix itself) has
    PATH_INFO set. *)
Lemma path_info_from_host :
  ~ handler_env Sample.ops_path_info Sample.conf Sample.cl Sample.pi "/lua" Sample.child
      (path_info_of_path Sample.conf "/lua") (query_recorded Sample.pi "/lua").
Proof.
  intros (pi' & p' & r & env & Henv & Htop & Htab & Hpath & _).
  rewrite lua_main_env_spec in Henv. injection Henv as <- <-.
  destruct (env_process_top Sample.ops_path_info Sample.conf Sample.cl Sample.pi "/lua"
              Sample.child) as [Htop' Htab'].
  assert (Hr : r = length (tables (p_lua Sample.child))) by congruence. subst r.
  assert (He : env = env_table Sample.ops_path_info Sample.conf Sample.cl Sample.pi "/lua")
    by congruence.
  subst env.
  unfold path_info_of_path in Hpath. vm_compute in Hpath. discriminate Hpath.
Qed.

(** C10, a run of the theorem: the request for "/lua/status?verbose=1" with
    the prefix "/lua" and a host that gives PATH_INFO no value. *)
Lemma path_info_after_prefix_witness :
  strlen "/lua/status?verbose=1" <= INT_MAX /\
  strlen (lua_prefix Sample.conf) <= INT_MAX /\
  host_leaves Sample.ops "PATH_INFO" Sample.cl /\
  handler_env Sample.ops Sample.conf Sample.cl Sample.pi "/lua/status?verbose=1" Sample.child
    (λ env, path_info_of_path Sample.conf "/lua/status?verbose=1" env /\
            forall s, tbl_get (LString "PATH_INFO") env = LString s -> strchr s "?" = None)
    (query_recorded Sample.pi "/lua/status?verbose=1").
Proof.
  assert (H1 : strlen "/lua/status?verbose=1" <= INT_MAX) by (vm_compute; discriminate).
  assert (H2 : strlen (lua_prefix Sample.conf) <= INT_MAX) by (vm_compute; discriminate).
  assert (H3 : host_leaves Sample.ops "PATH_INFO" Sample.cl).
  { intros pi. repeat constructor; cbn; intros H; try discriminate H; reflexivity. }
  split; [exact H1|]. split; [exact H2|]. split; [exact H3|].
  exact (path_info_after_prefix Sample.ops Sample.conf Sample.cl Sample.pi
           "/lua/status?verbose=1" Sample.child H1 H2 H3).
Defined.

(** ** The host cannot create the child process *)

(** C6, a run of the theorem: the host fails to create the child with
    ENOMEM. *)
Lemma lua_handle_request_no_child_witness :
  create_process Sample.ops_no_child Sample.cl (request_path_info Sample.conf) "/lua/status"
    = false /\
  lua_handle_request Sample.rt_returns Sample.ops_no_child Sample.conf Sample.strerror
    Sample.errno_no_memory Sample.cl "/lua/status" Sample.pi =
    [ H_create_process Sample.cl (request_path_info Sample.conf) "/lua/status"
        (lua_main Sample.rt_returns Sample.ops_no_child Sample.conf Sample.strerror);
      H_client_error Sample.cl 500 "Internal Server Error"
        ("Failed to create CGI process: " +:+
         Sample.strerror
           (Sample.errno_no_memory Sample.cl (request_path_info Sample.conf) "/lua/status")) ].
Proof.
  split; [reflexivity|].
  apply (lua_handle_request_no_child Sample.rt_returns Sample.ops_no_child Sample.conf
           Sample.strerror Sample.errno_no_memory Sample.cl "/lua/status" Sample.pi).
  reflexivity.
Defined.

(** ** uhttpd.recv *)

(** C7, a run of the theorem: the [recv] of the table, called with length
    4096 while "hello" is pending on descriptor 0, returns 5 and "hello"
    and leaves nothing to read. *)
Lemma uhttpd_api_table_witness :
  exists n q',
    uh_lua_recv Sample.rt_returns Sample.LUAL_BUFFERSIZE Sample.int_cast_overflow
      (Sample.receiving 4096 [ReadBytes "hello"]) = Ok n q' /\
    results n q' = [LNumber (inject_Z 5); LString "hello"] /\
    pending (p_world q') STDIN_FILENO = [].
Proof.
  destruct (uhttpd_api_table Sample.rt_returns Sample.ops Sample.conf Sample.LUAL_BUFFERSIZE
              Sample.int_cast_overflow Sample.fresh)
    as (_ & _ & _ & _ & _ & _ & _ & _ & _ & _ & _ & Hreads & _).
  assert (H1 : (1 <= inject_Z 4096)%Q) by (vm_compute; discriminate).
  assert (H2 : (inject_Z 4096 < 2147483648)%Q) by reflexivity.
  assert (H3 : Forall (chunk_fits Sample.LUAL_BUFFERSIZE)
                 (pending (p_world (Sample.receiving 4096 [ReadBytes "hello"])) STDIN_FILENO)).
  { repeat constructor. vm_compute. discriminate. }
  assert (H4 : strlen (bytes_of (pending (p_world (Sample.receiving 4096 [ReadBytes "hello"]))
                                   STDIN_FILENO)) <= INT_MAX).
  { vm_compute. discriminate. }
  exact (Hreads (Sample.receiving 4096 [ReadBytes "hello"]) (inject_Z 4096) eq_refl H1 H2 H3 H4).
Defined.

(** A function that returns without a read is told apart from [recv]: it
    does not read standard input. *)
Example reads_stdin_needs_a_read : ~ reads_stdin Sample.LUAL_BUFFERSIZE (mret 0).
Proof.
  intros H.
  assert (H1 : (1 <= inject_Z 4096)%Q) by (vm_compute; discriminate).
  assert (H2 : (inject_Z 4096 < 2147483648)%Q) by reflexivity.
  assert (H3 : Forall (chunk_fits Sample.LUAL_BUFFERSIZE)
                 (pending (p_world (Sample.receiving 4096 [ReadBytes "hello"])) STDIN_FILENO)).
  { repeat constructor. vm_compute. discriminate. }
  assert (H4 : strlen (bytes_of (pending (p_world (Sample.receiving 4096 [ReadBytes "hello"]))
                                   STDIN_FILENO)) <= INT_MAX).
  { vm_compute. discriminate. }
  destruct (H (Sample.receiving 4096 [ReadBytes "hello"]) (inject_Z 4096) eq_refl H1 H2 H3 H4)
    as (n & q' & Hrun & _ & Hpend).
  injection Hrun as _ <-. vm_compute in Hpend. discriminate Hpend.
Qed.

(** C8, as it is stated, fails: [uhttpd.recv(0.5)] has a length greater
    than 0 and makes no read, though "hello" is pending; the length is
    converted to the [int] 0. *)
Lemma recv_fraction_reads_nothing :
  ~ (forall n p',
       uh_lua_recv Sample.rt_returns Sample.LUAL_BUFFERSIZE Sample.int_cast_overflow
         (Sample.receiving_number (1 # 2) [ReadBytes "hello"]) = Ok n p' ->
       reads_until_stop Sample.LUAL_BUFFERSIZE (1 # 2)
         (Sample.receiving_number (1 # 2) [ReadBytes "hello"]) p').
Proof.
  intros H.
  assert (E : exists p',
    uh_lua_recv Sample.rt_returns Sample.LUAL_BUFFERSIZE Sample.int_cast_overflow
      (Sample.receiving_number (1 # 2) [ReadBytes "hello"]) = Ok 1 p' /\
    results 1 p' = [LNumber (inject_Z 0)] /\
    pending (p_world p') STDIN_FILENO = [ReadBytes "hello"]).
  { eexists. split; [|split]; vm_compute; reflexivity. }
  destruct E as (p' & Hrun & _ & Hpend).
  assert (Hpos : (0 < 1 # 2)%Q) by reflexivity.
  pose proof (H 1 p' Hrun Hpos) as Hstop.
  rewrite Hpend in Hstop. vm_compute in Hstop. discriminate Hstop.
Qed.

(** C8, a run of the theorem: called with length 1, [uhttpd.recv] gets
    through an interrupted read and returns the 5 bytes of the next one. *)
Lemma recv_length_no_limit_witness :
  pending (p_world (Sample.receiving 1
             [ReadFail EINTR poll_timeout; ReadBytes "hello"; ReadBytes "world"]))
    STDIN_FILENO = [ReadFail EINTR poll_timeout; ReadBytes "hello"; ReadBytes "world"] /\
  value_at (p_lua (Sample.receiving 1
             [ReadFail EINTR poll_timeout; ReadBytes "hello"; ReadBytes "world"])) 1
    = Some (LNumber (inject_Z 1)) /\
  (1 <= inject_Z 1)%Q /\
  (inject_Z 1 < 2147483648)%Q /\
  Forall (chunk_fits Sample.LUAL_BUFFERSIZE)
    [ReadFail EINTR poll_timeout; ReadBytes "hello"; ReadBytes "world"] /\
  strlen (bytes_of [ReadFail EINTR poll_timeout; ReadBytes "hello"; ReadBytes "world"])
    <= INT_MAX /\
  exists n p',
    uh_lua_recv Sample.rt_returns Sample.LUAL_BUFFERSIZE Sample.int_cast_overflow
      (Sample.receiving 1 [ReadFail EINTR poll_timeout; ReadBytes "hello"; ReadBytes "world"])
      = Ok n p' /\
    results n p' = [LNumber (inject_Z 5); LString "hello"] /\
    pending (p_world p') STDIN_FILENO = [ReadBytes "world"].
Proof.
  assert (H0 : pending (p_world (Sample.receiving 1
                 [ReadFail EINTR poll_timeout; ReadBytes "hello"; ReadBytes "world"]))
                 STDIN_FILENO
               = [ReadFail EINTR poll_timeout; ReadBytes "hello"; ReadBytes "world"])
    by reflexivity.
  assert (H1 : value_at (p_lua (Sample.receiving 1
                 [ReadFail EINTR poll_timeout; ReadBytes "hello"; ReadBytes "world"])) 1
               = Some (LNumber (inject_Z 1))) by reflexivity.
  assert (H2 : (1 <= inject_Z 1)%Q) by (vm_compute; discriminate).
  assert (H2' : (inject_Z 1 < 2147483648)%Q) by reflexivity.
  assert (H3 : Forall (chunk_fits Sample.LUAL_BUFFERSIZE)
                 [ReadFail EINTR poll_timeout; ReadBytes "hello"; ReadBytes "world"]).
  { repeat constructor; vm_compute; discriminate. }
  assert (H4 : strlen (bytes_of [ReadFail EINTR poll_timeout; ReadBytes "hello";
                                 ReadBytes "world"]) <= INT_MAX).
  { vm_compute. discriminate. }
  split; [exact H0|]. split; [exact H1|]. split; [exact H2|]. split; [exact H2'|].
  split; [exact H3|]. split; [exact H4|].
  destruct (recv_length_no_limit Sample.rt_returns Sample.LUAL_BUFFERSIZE
              Sample.int_cast_overflow) as (_ & Hreads & _).
  exact (Hreads _ _ _ H0 H1 H2 H2' H3 H4).
Defined.

(** C9, as it is stated, fails: after a read of "hello" the two results
    are not the data followed by its length (they are 5 and then "hello"). *)
Lemma recv_returns_count_first :
  ~ (forall n p',
       uh_lua_recv Sample.rt_returns Sample.LUAL_BUFFERSIZE Sample.int_cast_overflow
         (Sample.receiving 4096 [ReadBytes "hello"]) = Ok n p' ->
       data_then_count n p').
Proof.
  intros H.
  assert (E : exists p',
    uh_lua_recv Sample.rt_returns Sample.LUAL_BUFFERSIZE Sample.int_cast_overflow
      (Sample.receiving 4096 [ReadBytes "hello"]) = Ok 2 p' /\
    results 2 p' = [LNumber (inject_Z 5); LString "hello"]).
  { eexists. split; vm_compute; reflexivity. }
  destruct E as (p' & Hrun & Hres).
  destruct (H 2 p' Hrun eq_refl) as (data & Hdata).
  rewrite Hres in Hdata. discriminate Hdata.
Qed.

(** C9, a run of the theorem: a read that would block, a [poll] that is
    interrupted, then "hello". *)
Lemma recv_count_then_data_witness :
  pending (p_world (Sample.receiving 4096
             [ReadFail EAGAIN Sample.poll_interrupted; ReadBytes "hello"])) STDIN_FILENO
    = [ReadFail EAGAIN Sample.poll_interrupted; ReadBytes "hello"] /\
  reads_of_call Sample.LUAL_BUFFERSIZE (int_of_number Sample.int_cast_overflow (inject_Z 4096))
    [ReadFail EAGAIN Sample.poll_interrupted; ReadBytes "hello"]
    = [ReadFail EAGAIN Sample.poll_interrupted; ReadBytes "hello"] /\
  value_at (p_lua (Sample.receiving 4096
             [ReadFail EAGAIN Sample.poll_interrupted; ReadBytes "hello"])) 1
    = Some (LNumber (inject_Z 4096)) /\
  Forall (chunk_fits Sample.LUAL_BUFFERSIZE)
    [ReadFail EAGAIN Sample.poll_interrupted; ReadBytes "hello"] /\
  strlen (bytes_of [ReadFail EAGAIN Sample.poll_interrupted; ReadBytes "hello"]) <= INT_MAX /\
  exists n p',
    uh_lua_recv Sample.rt_returns Sample.LUAL_BUFFERSIZE Sample.int_cast_overflow
      (Sample.receiving 4096 [ReadFail EAGAIN Sample.poll_interrupted; ReadBytes "hello"])
      = Ok n p' /\
    results n p' = [LNumber (inject_Z 5); LString "hello"] /\
    n = 2 /\
    pending (p_world p') STDIN_FILENO = [].
Proof.
  assert (H0 : pending (p_world (Sample.receiving 4096
                 [ReadFail EAGAIN Sample.poll_interrupted; ReadBytes "hello"])) STDIN_FILENO
               = [ReadFail EAGAIN Sample.poll_interrupted; ReadBytes "hello"]) by reflexivity.
  assert (H1 : reads_of_call Sample.LUAL_BUFFERSIZE
                 (int_of_number Sample.int_cast_overflow (inject_Z 4096))
                 [ReadFail EAGAIN Sample.poll_interrupted; ReadBytes "hello"]
               = [ReadFail EAGAIN Sample.poll_interrupted; ReadBytes "hello"])
    by reflexivity.
  assert (H2 : value_at (p_lua (Sample.receiving 4096
                 [ReadFail EAGAIN Sample.poll_interrupted; ReadBytes "hello"])) 1
               = Some (LNumber (inject_Z 4096))) by reflexivity.
  assert (H3 : Forall (chunk_fits Sample.LUAL_BUFFERSIZE)
                 [ReadFail EAGAIN Sample.poll_interrupted; ReadBytes "hello"]).
  { repeat constructor. vm_compute. discriminate. }
  assert (H4 : strlen (bytes_of [ReadFail EAGAIN Sample.poll_interrupted; ReadBytes "hello"])
               <= INT_MAX).
  { vm_compute. discriminate. }
  split; [exact H0|]. split; [exact H1|]. split; [exact H2|]. split; [exact H3|].
  split; [exact H4|].
  exact (proj1 (recv_count_then_data Sample.rt_returns Sample.LUAL_BUFFERSIZE
                  Sample.int_cast_overflow
                  (Sample.receiving 4096
                     [ReadFail EAGAIN Sample.poll_interrupted; ReadBytes "hello"])
                  (inject_Z 4096) _ _ H0 H1 H2 H3 H4)).
Defined.

(** A read that would block, a [poll] that is interrupted, then the end of
    file: the failed read is retried and the call returns 0. *)
Example recv_interrupted_poll_end_of_file :
  exists p',
    uh_lua_recv Sample.rt_returns Sample.LUAL_BUFFERSIZE Sample.int_cast_overflow
      (Sample.receiving 4096 [ReadFail EAGAIN Sample.poll_interrupted]) = Ok 1 p' /\
    results 1 p' = [LNumber (inject_Z 0)].
Proof. eexists. split; vm_compute; reflexivity. Qed.

(** A read that would block and a [poll] that comes back after its timeout
    with no input: the call returns -1. *)
Example recv_would_block_no_input :
  exists p',
    uh_lua_recv Sample.rt_returns Sample.LUAL_BUFFERSIZE Sample.int_cast_overflow
      (Sample.receiving 4096 [ReadFail EAGAIN poll_timeout; ReadBytes "hello"]) = Ok 1 p' /\
    results 1 p' = [LNumber (inject_Z (-1))] /\
    pending (p_world p') STDIN_FILENO = [ReadBytes "hello"].
Proof. eexists. split; [|split]; vm_compute; reflexivity. Qed.

(** A length whose integral part is no [int], converted as x86 does: no
    read is made. *)
Example recv_length_out_of_range :
  exists p',
    uh_lua_recv Sample.rt_returns Sample.LUAL_BUFFERSIZE Sample.int_cast_overflow
      (Sample.receiving 4294967297 [ReadBytes "hello"]) = Ok 1 p' /\
    results 1 p' = [LNumber (inject_Z 0)] /\
    pending (p_world p') STDIN_FILENO = [ReadBytes "hello"].
Proof. eexists. split; [|split]; vm_compute; reflexivity. Qed.

(** * Runs of the further properties *)

(** X1, a run of the theorem: the conversion copies "a/b". *)
Lemma uh_lua_strconvert_result_witness :
  value_at (p_lua (Sample.called_on (LString "a/b"))) 1 = Some (LString "a/b") /\
  tostring_value Sample.rt_returns (LString "a/b") = Some "a/b" /\
  Sample.convert_strict 4096 "a/b" = (3, "a/b") /\
  0 <= 3 /\
  exists p',
    uh_lua_strconvert Sample.rt_returns Sample.convert_strict (Sample.called_on (LString "a/b"))
      = Ok 1 p' /\
    results 1 p' = [LString (substring 0 (Z.to_nat 3) "a/b")] /\
    length (stack (p_lua p')) = S (length (stack (p_lua (Sample.called_on (LString "a/b"))))) /\
    p_world p' = p_world (Sample.called_on (LString "a/b")).
Proof.
  assert (H1 : value_at (p_lua (Sample.called_on (LString "a/b"))) 1 = Some (LString "a/b"))
    by reflexivity.
  assert (H2 : tostring_value Sample.rt_returns (LString "a/b") = Some "a/b") by reflexivity.
  assert (H3 : Sample.convert_strict 4096 "a/b" = (3, "a/b")) by reflexivity.
  assert (H4 : 0 <= 3) by lia.
  split; [exact H1|]. split; [exact H2|]. split; [exact H3|]. split; [exact H4|].
  exact (uh_lua_strconvert_result Sample.rt_returns Sample.convert_strict
           (Sample.called_on (LString "a/b")) (LString "a/b") "a/b" "a/b" 3 H1 H2 H3 H4).
Defined.

(** X2, a run of the theorem: the conversion refuses "50%". *)
Lemma uh_lua_strconvert_error_witness :
  value_at (p_lua (Sample.called_on (LString "50%"))) 1 = Some (LString "50%") /\
  tostring_value Sample.rt_returns (LString "50%") = Some "50%" /\
  Sample.convert_strict 4096 "50%" = (-2, "") /\
  -2 < 0 /\
  exists p',
    uh_lua_strconvert Sample.rt_returns Sample.convert_strict (Sample.called_on (LString "50%"))
      = Raise (ErrRun (LString (conversion_error (-2)))) p' /\
    length (stack (p_lua p')) = length (stack (p_lua (Sample.called_on (LString "50%")))) /\
    p_world p' = p_world (Sample.called_on (LString "50%")) /\
    (-2 = -1 -> conversion_error (-2) = "buffer overflow on URL conversion" +:+ LF) /\
    (-2 <> -1 -> conversion_error (-2) = "malformed string on URL conversion" +:+ LF).
Proof.
  assert (H1 : value_at (p_lua (Sample.called_on (LString "50%"))) 1 = Some (LString "50%"))
    by reflexivity.
  assert (H2 : tostring_value Sample.rt_returns (LString "50%") = Some "50%") by reflexivity.
  assert (H3 : Sample.convert_strict 4096 "50%" = (-2, "")) by reflexivity.
  assert (H4 : -2 < 0) by lia.
  split; [exact H1|]. split; [exact H2|]. split; [exact H3|]. split; [exact H4|].
  exact (uh_lua_strconvert_error Sample.rt_returns Sample.convert_strict
           (Sample.called_on (LString "50%")) (LString "50%") "50%" "" (-2) H1 H2 H3 H4).
Defined.

(** X3, a run of the theorem: the argument is [true]. *)
Lemma uh_lua_strconvert_bad_argument_witness :
  value_at (p_lua (Sample.called_on (LBoolean true))) 1 = Some (LBoolean true) /\
  tostring_value Sample.rt_returns (LBoolean true) = None /\
  uh_lua_strconvert Sample.rt_returns Sample.convert_strict (Sample.called_on (LBoolean true))
    = Raise (ErrRun (LString "bad argument #1 (string expected, got boolean)"))
            (Sample.called_on (LBoolean true)).
Proof.
  assert (H1 : value_at (p_lua (Sample.called_on (LBoolean true))) 1 = Some (LBoolean true))
    by reflexivity.
  assert (H2 : tostring_value Sample.rt_returns (LBoolean true) = None) by reflexivity.
  split; [exact H1|]. split; [exact H2|].
  exact (uh_lua_strconvert_bad_argument Sample.rt_returns Sample.convert_strict
           (Sample.called_on (LBoolean true)) (LBoolean true) H1 H2).
Defined.

(** X4, a run of the theorem: [uhttpd.recv(0)] with "hello" pending. *)
Lemma uh_lua_recv_no_length_witness :
  value_at (p_lua (Sample.receiving 0 [ReadBytes "hello"])) 1 = Some (LNumber (inject_Z 0)) /\
  int_of_number Sample.int_cast_overflow (inject_Z 0) <= 0 /\
  exists p',
    uh_lua_recv Sample.rt_returns Sample.LUAL_BUFFERSIZE Sample.int_cast_overflow (Sample.receiving 0 [ReadBytes "hello"])
      = Ok 1 p' /\
    results 1 p' = [LNumber (inject_Z 0)] /\
    (forall fd, pending (p_world p') fd
                = pending (p_world (Sample.receiving 0 [ReadBytes "hello"])) fd) /\
    w_stdout (p_world p') = w_stdout (p_world (Sample.receiving 0 [ReadBytes "hello"])) /\
    w_errno (p_world p') = w_errno (p_world (Sample.receiving 0 [ReadBytes "hello"])).
Proof.
  assert (H1 : value_at (p_lua (Sample.receiving 0 [ReadBytes "hello"])) 1
               = Some (LNumber (inject_Z 0))) by reflexivity.
  assert (H2 : int_of_number Sample.int_cast_overflow (inject_Z 0) <= 0) by (vm_compute; discriminate).
  split; [exact H1|]. split; [exact H2|].
  exact (uh_lua_recv_no_length Sample.rt_returns Sample.LUAL_BUFFERSIZE Sample.int_cast_overflow
           (Sample.receiving 0 [ReadBytes "hello"]) (inject_Z 0) H1 H2).
Defined.

(** X5, a run of the theorem: [uhttpd.recv("many")]. *)
Lemma uh_lua_recv_bad_argument_witness :
  value_at (p_lua (Sample.called_on (LString "many"))) 1 = Some (LString "many") /\
  reads_as_number Sample.rt_returns (LString "many") = false /\
  uh_lua_recv Sample.rt_returns Sample.LUAL_BUFFERSIZE Sample.int_cast_overflow (Sample.called_on (LString "many"))
    = Raise (ErrRun (LString "bad argument #1 (number expected, got string)"))
            (Sample.called_on (LString "many")).
Proof.
  assert (H1 : value_at (p_lua (Sample.called_on (LString "many"))) 1 = Some (LString "many"))
    by reflexivity.
  assert (H2 : reads_as_number Sample.rt_returns (LString "many") = false) by reflexivity.
  split; [exact H1|]. split; [exact H2|].
  exact (uh_lua_recv_bad_argument Sample.rt_returns Sample.LUAL_BUFFERSIZE Sample.int_cast_overflow
           (Sample.called_on (LString "many")) (LString "many") H1 H2).
Defined.

(** X7, a run of the theorem: "hello" is returned, "world" stays. *)
Lemma uh_lua_recv_no_byte_lost_witness :
  pending (p_world (Sample.receiving 4096 [ReadBytes "hello"; ReadBytes "world"])) STDIN_FILENO
    = [ReadBytes "hello"; ReadBytes "world"] /\
  value_at (p_lua (Sample.receiving 4096 [ReadBytes "hello"; ReadBytes "world"])) 1
    = Some (LNumber (inject_Z 4096)) /\
  strlen (bytes_of [ReadBytes "hello"; ReadBytes "world"]) <= INT_MAX /\
  exists n p' data,
    uh_lua_recv Sample.rt_returns Sample.LUAL_BUFFERSIZE Sample.int_cast_overflow
      (Sample.receiving 4096 [ReadBytes "hello"; ReadBytes "world"]) = Ok n p' /\
    bytes_of [ReadBytes "hello"; ReadBytes "world"]
      = data +:+ bytes_of (pending (p_world p') STDIN_FILENO) /\
    (if 0 <? strlen data
     then exists count, results n p' = [LNumber count; LString data]
     else n = 1).
Proof.
  assert (H0 : pending (p_world (Sample.receiving 4096 [ReadBytes "hello"; ReadBytes "world"]))
                 STDIN_FILENO = [ReadBytes "hello"; ReadBytes "world"]) by reflexivity.
  assert (H1 : value_at (p_lua (Sample.receiving 4096 [ReadBytes "hello"; ReadBytes "world"])) 1
               = Some (LNumber (inject_Z 4096))) by reflexivity.
  assert (H2 : strlen (bytes_of [ReadBytes "hello"; ReadBytes "world"]) <= INT_MAX)
    by (vm_compute; discriminate).
  split; [exact H0|]. split; [exact H1|]. split; [exact H2|].
  exact (uh_lua_recv_no_byte_lost Sample.rt_returns Sample.LUAL_BUFFERSIZE Sample.int_cast_overflow
           (Sample.receiving 4096 [ReadBytes "hello"; ReadBytes "world"]) (inject_Z 4096)
           _ H0 H1 H2).
Defined.

(** X9, a run of the theorem: the script defines [handle_request]. *)
Lemma uh_lua_state_init_returns_witness :
  exists id vals L' w',
    rt_loadfile Sample.rt_init (lua_handler Sample.conf) (p_world Sample.fresh) = inr id /\
    script_run Sample.rt_init Sample.conf id (p_world Sample.fresh) = Returns vals L' w' /\
    is_function (default LNil (globals L' !! UH_LUA_CB)) = true /\
    exists p', uh_lua_state_init Sample.rt_init Sample.conf Sample.fresh = Ok tt p'.
Proof.
  eexists _, _, _, _.
  split; [reflexivity|]. split; [reflexivity|]. split; [reflexivity|].
  destruct (uh_lua_state_init_returns Sample.rt_init Sample.conf Sample.fresh) as [_ Hret].
  eapply Hret; reflexivity.
Defined.

(** X10, a run of the theorem: the handler file cannot be opened. *)
Lemma uh_lua_state_init_load_failure_witness :
  rt_loadfile Sample.rt_no_file (lua_handler Sample.conf) (p_world Sample.fresh)
    = inl (LoadFile "cannot open /usr/lib/uhttpd/handler.lua") /\
  exists p' msg,
    uh_lua_state_init Sample.rt_no_file Sample.conf Sample.fresh = Exit 1 p' /\
    load_message (LoadFile "cannot open /usr/lib/uhttpd/handler.lua") = LString msg /\
    w_stderr (p_world p') =
      w_stderr (p_world Sample.fresh) +:+ ("Error loading Lua handler: " +:+ msg +:+ LF) /\
    w_stdout (p_world p') = w_stdout (p_world Sample.fresh) /\
    pcalls (p_log p') = pcalls (p_log Sample.fresh).
Proof.
  assert (H : rt_loadfile Sample.rt_no_file (lua_handler Sample.conf) (p_world Sample.fresh)
              = inl (LoadFile "cannot open /usr/lib/uhttpd/handler.lua")) by reflexivity.
  split; [exact H|].
  exact (uh_lua_state_init_load_failure Sample.rt_no_file Sample.conf Sample.fresh _ H).
Defined.


(** X12, a run of the theorem: the script defines nothing. *)
Lemma uh_lua_state_init_no_callback_witness :
  exists id vals L' w',
    rt_loadfile Sample.rt_returns (lua_handler Sample.conf) (p_world Sample.fresh) = inr id /\
    script_run Sample.rt_returns Sample.conf id (p_world Sample.fresh) = Returns vals L' w' /\
    is_function (default LNil (globals L' !! UH_LUA_CB)) = false /\
    exists p',
      uh_lua_state_init Sample.rt_returns Sample.conf Sample.fresh = Exit 1 p' /\
      w_stderr (p_world p') =
        w_stderr w' +:+ ("Error: Lua handler provides no handle_request() callback." +:+ LF) /\
      w_stdout (p_world p') = w_stdout w'.
Proof.
  eexists _, _, _, _.
  split; [reflexivity|]. split; [reflexivity|]. split; [reflexivity|].
  eapply uh_lua_state_init_no_callback; reflexivity.
Defined.

(** X13, a run of the theorem: the handler prints a response and returns. *)
Lemma lua_main_handler_returns_witness :
  exists vals L' w',
    handler_call Sample.rt_returns Sample.ops Sample.conf Sample.cl Sample.pi "/lua/status"
      Sample.child = Returns vals L' w' /\
    exists pf,
      lua_main Sample.rt_returns Sample.ops Sample.conf Sample.strerror Sample.cl Sample.pi
        "/lua/status" Sample.child = Exit 0 pf /\
      p_world pf = w' /\
      stack (p_lua pf) = stack (p_lua Sample.child) /\
      globals (p_lua pf) = globals L' /\
      tables (p_lua pf) = tables L'.
Proof.
  eexists _, _, _. split; [reflexivity|].
  eapply lua_main_handler_returns; reflexivity.
Defined.

(** X14, a run of the theorem: the handler throws the string "boom". *)
Lemma lua_main_response_500_witness :
  exists e L' w' s,
    handler_call Sample.rt_error_string Sample.ops Sample.conf Sample.cl Sample.pi
      "/lua/status" Sample.child = Fails e L' w' /\
    (error_status e = LUA_ERRRUN \/ error_status e = LUA_ERRMEM) /\
    tostring_value Sample.rt_error_string (error_object e) = Some s /\
    exists pf,
      lua_main Sample.rt_error_string Sample.ops Sample.conf Sample.strerror Sample.cl
        Sample.pi "/lua/status" Sample.child = Exit 0 pf /\
      w_stdout (p_world pf) =
        w_stdout w' +:+
        ("Status: 500 Internal Server Error" +:+ CR +:+ LF +:+ CR +:+ LF +:+
         "Unable to launch the requested Lua program:" +:+ LF +:+
         "  " +:+ show_str (pi_phys Sample.pi) +:+ ": " +:+
         Sample.strerror (w_errno w') +:+ LF) /\
      w_stderr (p_world pf) = w_stderr w'.
Proof.
  eexists _, _, _, _. split; [reflexivity|]. split; [left; reflexivity|].
  split; [reflexivity|].
  eapply lua_main_response_500; [reflexivity|left; reflexivity|reflexivity].
Defined.

(** X15, a run of the theorem: the handler throws a table. *)
Lemma lua_main_error_value_not_string_witness :
  exists obj L' w',
    handler_call Sample.rt_error_table Sample.ops Sample.conf Sample.cl Sample.pi
      "/lua/status" Sample.child = Fails (ErrRun obj) L' w' /\
    tostring_value Sample.rt_error_table obj = None /\
    exists pf,
      lua_main Sample.rt_error_table Sample.ops Sample.conf Sample.strerror Sample.cl
        Sample.pi "/lua/status" Sample.child = Exit EXIT_FAILURE pf /\
      w_stdout (p_world pf) = w_stdout w' /\
      w_stderr (p_world pf) =
        w_stderr w' +:+
        ("PANIC: unprotected error in call to Lua API (" +:+
         bad_argument (-1) "string" obj +:+ ")" +:+ LF).
Proof.
  eexists _, _, _. split; [reflexivity|]. split; [reflexivity|].
  eapply lua_main_error_value_not_string; reflexivity.
Defined.

(** X16, a run of the theorem: the call fails with LUA_ERRERR. *)
Lemma lua_main_other_status_witness :
  exists e L' w',
    handler_call Sample.rt_error_in_error Sample.ops Sample.conf Sample.cl Sample.pi
      "/lua/status" Sample.child = Fails e L' w' /\
    error_status e <> LUA_ERRRUN /\
    error_status e <> LUA_ERRMEM /\
    exists pf,
      lua_main Sample.rt_error_in_error Sample.ops Sample.conf Sample.strerror Sample.cl
        Sample.pi "/lua/status" Sample.child = Exit 0 pf /\
      p_world pf = w'.
Proof.
  eexists _, _, _. split; [reflexivity|].
  split; [discriminate|]. split; [discriminate|].
  eapply lua_main_other_status; [reflexivity|discriminate|discriminate].
Defined.

(** X17, a run of the theorem: the Lua state has no [handle_request]. *)
Lemma lua_main_no_handler_witness :
  is_function (default LNil (globals (p_lua Sample.child_no_handler) !! UH_LUA_CB)) = false /\
  exists pf,
    lua_main Sample.rt_returns Sample.ops Sample.conf Sample.strerror Sample.cl Sample.pi
      "/lua/status" Sample.child_no_handler = Exit 0 pf /\
    w_stdout (p_world pf) =
      w_stdout (p_world Sample.child_no_handler) +:+
      ("Status: 500 Internal Server Error" +:+ CR +:+ LF +:+ CR +:+ LF +:+
       "Unable to launch the requested Lua program:" +:+ LF +:+
       "  " +:+ show_str (pi_phys Sample.pi) +:+ ": " +:+
       Sample.strerror (w_errno (p_world Sample.child_no_handler)) +:+ LF) /\
    globals (p_lua pf) = globals (p_lua Sample.child_no_handler).
Proof.
  assert (H : is_function
                (default LNil (globals (p_lua Sample.child_no_handler) !! UH_LUA_CB)) = false)
    by reflexivity.
  split; [exact H|].
  exact (lua_main_no_handler Sample.rt_returns Sample.ops Sample.conf Sample.strerror
           Sample.cl Sample.pi "/lua/status" Sample.child_no_handler H).
Defined.

(** X20, a run of the theorem: QUERY_STRING of the request
    "/lua/status?verbose=1". *)
Lemma env_table_process_variable_witness :
  "QUERY_STRING" <> "PATH_INFO" /\
  "QUERY_STRING" <> "HTTP_VERSION" /\
  exists pi' p1 r env,
    lua_main_env Sample.ops Sample.conf Sample.cl Sample.pi "/lua/status?verbose=1"
      Sample.child = Ok pi' p1 /\
    value_at (p_lua p1) (-1) = Some (LTable r) /\
    tables (p_lua p1) !! r = Some env /\
    tbl_get (LString "QUERY_STRING") env =
      match last_value "QUERY_STRING" (get_process_vars Sample.ops Sample.cl pi') with
      | Some value => LString value
      | None => LNil
      end.
Proof.
  assert (H1 : "QUERY_STRING" <> "PATH_INFO") by discriminate.
  assert (H2 : "QUERY_STRING" <> "HTTP_VERSION") by discriminate.
  split; [exact H1|]. split; [exact H2|].
  exact (env_table_process_variable Sample.ops Sample.conf Sample.cl Sample.pi
           "/lua/status?verbose=1" Sample.child "QUERY_STRING" H1 H2).
Defined.

(** X21, a run of the theorem: "/lua/status?verbose=1" under "/lua". *)
Lemma path_info_is_rest_of_path_witness :
  path_portion "/lua/status?verbose=1" = lua_prefix Sample.conf +:+ "/status" /\
  strlen "/lua/status?verbose=1" <= INT_MAX /\
  strlen (lua_prefix Sample.conf) <= INT_MAX /\
  host_leaves Sample.ops "PATH_INFO" Sample.cl /\
  handler_env Sample.ops Sample.conf Sample.cl Sample.pi "/lua/status?verbose=1" Sample.child
    (λ env, tbl_get (LString "PATH_INFO") env =
              if decide ("/status" = "") then LNil else LString "/status")
    (λ _, True).
Proof.
  assert (H0 : path_portion "/lua/status?verbose=1" = lua_prefix Sample.conf +:+ "/status")
    by reflexivity.
  assert (H1 : strlen "/lua/status?verbose=1" <= INT_MAX) by (vm_compute; discriminate).
  assert (H2 : strlen (lua_prefix Sample.conf) <= INT_MAX) by (vm_compute; discriminate).
  assert (H3 : host_leaves Sample.ops "PATH_INFO" Sample.cl).
  { intros pi. repeat constructor; cbn; intros H; try discriminate H; reflexivity. }
  split; [exact H0|]. split; [exact H1|]. split; [exact H2|]. split; [exact H3|].
  exact (path_info_is_rest_of_path Sample.ops Sample.conf Sample.cl Sample.pi
           "/lua/status?verbose=1" "/status" Sample.child H0 H1 H2 H3).
Defined.

(** X23, a run of the theorem: the host creates the child. *)
Lemma lua_handle_request_child_witness :
  create_process Sample.ops Sample.cl (request_path_info Sample.conf) "/lua/status" = true /\
  lua_handle_request Sample.rt_returns Sample.ops Sample.conf Sample.strerror
    Sample.errno_no_memory Sample.cl "/lua/status" Sample.pi =
    [ H_create_process Sample.cl (request_path_info Sample.conf) "/lua/status"
        (lua_main Sample.rt_returns Sample.ops Sample.conf Sample.strerror) ] /\
  pi_name (request_path_info Sample.conf) = Some (lua_prefix Sample.conf) /\
  pi_phys (request_path_info Sample.conf) = Some (lua_handler Sample.conf) /\
  pi_query (request_path_info Sample.conf) = None.
Proof.
  assert (H : create_process Sample.ops Sample.cl (request_path_info Sample.conf)
                "/lua/status" = true) by reflexivity.
  split; [exact H|].
  exact (lua_handle_request_child Sample.rt_returns Sample.ops Sample.conf Sample.strerror
           Sample.errno_no_memory Sample.cl "/lua/status" Sample.pi H).
Defined.

(** X25, a run of the theorem: the host sets PATH_INFO to
    "/from/the/host". *)
Lemma path_info_of_host_witness :
  (forall pi', last_value "PATH_INFO" (get_process_vars Sample.ops_path_info Sample.cl pi')
               = Some "/from/the/host") /\
  handler_env Sample.ops_path_info Sample.conf Sample.cl Sample.pi "/lua/status" Sample.child
    (λ env, tbl_get (LString "PATH_INFO") env = LString "/from/the/host")
    (λ _, True).
Proof.
  assert (H : forall pi',
    last_value "PATH_INFO" (get_process_vars Sample.ops_path_info Sample.cl pi')
    = Some "/from/the/host") by (intros pi'; reflexivity).
  split; [exact H|].
  exact (path_info_of_host Sample.ops_path_info Sample.conf Sample.cl Sample.pi "/lua/status"
           Sample.child "/from/the/host" H).
Defined.
